(** * Verification of the MathTrainingLabs drill engine

    A shallow embedding of the statistics / question module ([lib/math.ts],
    with its hourly pop-under guard) and of the session logic of
    [app/page.tsx]: the mistake ledger and its retry queue, question
    creation, the settings buttons and loader, the answer keypad and input
    cleaning, and [gcd].

    JS numbers are modelled as follows: levels, streaks, operands and
    answers are integers in the code, so they are [Z]; elapsed times and
    accuracies are rationals [Q].  Accuracies are quotients of two history
    counts of at most 12, so distinct accuracies differ by at least 1/240
    and the double comparisons the code performs agree with the exact
    rational ones. *)

From Stdlib Require Import ZArith QArith Qround Lqa Lia Ascii.
From stdpp Require Import base list sets strings pretty sorting.

Open Scope Z_scope.

(* ------------------------------------------------------------------ *)
(** ** Data model *)

Inductive SkillKey := add | sub | mul | div.

#[global] Instance SkillKey_eq_dec : EqDecision SkillKey.
Proof. solve_decision. Defined.

(** [${skill}] in a template string. *)
Definition skillName (k : SkillKey) : string :=
  match k with
  | add => "add"
  | sub => "sub"
  | mul => "mul"
  | div => "div"
  end.

Record Result := mkResult { correct : bool; ms : Q }.

Record SkillStats := mkSkillStats {
  level : Z;
  streak : Z;
  mistakeStreak : Z;
  history : list Result
}.

(** [Stats = Record<SkillKey, SkillStats>]: one field per skill. *)
Record Stats := mkStats {
  stats_add : SkillStats;
  stats_sub : SkillStats;
  stats_mul : SkillStats;
  stats_div : SkillStats
}.

(** [stats[skill]] *)
Definition get (s : Stats) (k : SkillKey) : SkillStats :=
  match k with
  | add => stats_add s
  | sub => stats_sub s
  | mul => stats_mul s
  | div => stats_div s
  end.

(** [{ ...stats, [skill]: v }] *)
Definition set (s : Stats) (k : SkillKey) (v : SkillStats) : Stats :=
  match k with
  | add => mkStats v (stats_sub s) (stats_mul s) (stats_div s)
  | sub => mkStats (stats_add s) v (stats_mul s) (stats_div s)
  | mul => mkStats (stats_add s) (stats_sub s) v (stats_div s)
  | div => mkStats (stats_add s) (stats_sub s) (stats_mul s) v
  end.

(** [LevelSpec]; the optional fields are [option]s. *)
Record LevelSpec := mkLevelSpec {
  minA : option Z;
  maxA : Z;
  minB : option Z;
  maxB : Z;
  allowNegative : option bool
}.

Definition ab (a b : Z) : LevelSpec := mkLevelSpec None a None b None.
Definition divSpec (lA hA lB hB : Z) : LevelSpec :=
  mkLevelSpec (Some lA) hA (Some lB) hB None.

Definition MAX_HISTORY : nat := 12.

Definition LEVELS (k : SkillKey) : list LevelSpec :=
  match k with
  | add | sub =>
      [ab 10 10; ab 20 20; ab 30 30; ab 50 50; ab 75 75; ab 100 100;
       ab 150 150; ab 250 250; ab 500 500; ab 1000 1000; ab 1500 1500;
       ab 2000 2000]
  | mul =>
      [ab 5 5; ab 9 9; ab 12 12; ab 15 15; ab 20 20; ab 25 25; ab 30 30;
       ab 40 40; ab 50 50; ab 60 60; ab 75 75; ab 90 90]
  | div =>
      [divSpec 1 5 0 5; divSpec 1 9 0 9; divSpec 1 12 0 12;
       divSpec 2 15 0 12; divSpec 2 20 0 15; divSpec 2 25 0 20;
       divSpec 3 30 0 25; divSpec 3 40 0 30; divSpec 4 50 0 40;
       divSpec 5 60 0 50; divSpec 6 75 0 60; divSpec 8 90 0 70]
  end.

Definition MAX_LEVEL : Z := Z.of_nat (length (LEVELS add)).

Definition SKILL_LIST : list SkillKey := [add; sub; mul; div].

Definition clamp (value min max : Z) : Z := Z.min (Z.max value min) max.

(** [specs[clamp(level - 1, 0, specs.length - 1)]]; the index is always in
    range, the default of [nth] is never used. *)
Definition getLevelSpec (skill : SkillKey) (lvl : Z) : LevelSpec :=
  let specs := LEVELS skill in
  nth (Z.to_nat (clamp (lvl - 1) 0 (Z.of_nat (length specs) - 1))) specs
      (ab 0 0).

Definition emptySkillStats : SkillStats := mkSkillStats 1 0 0 [].

Definition createDefaultStats : Stats :=
  mkStats emptySkillStats emptySkillStats emptySkillStats emptySkillStats.

(* ------------------------------------------------------------------ *)
(** ** Stats engine *)

Definition getTargetMs (lvl : Z) : Z :=
  let base := 6000 in
  let drop := 300 in
  clamp (base - lvl * drop) 2400 6000.

(** [arr.slice(-n)]: the last [n] elements. *)
Definition sliceLast {A} (n : nat) (l : list A) : list A :=
  drop (length l - n) l.

Definition updateStats (stats : Stats) (skill : SkillKey) (correct0 : bool)
    (ms0 : Q) : Stats :=
  let current := get stats skill in
  let nextHistory :=
    sliceLast MAX_HISTORY (history current ++ [mkResult correct0 ms0]) in
  let nextStreak := if correct0 then streak current + 1 else 0 in
  let nextMistakeStreak := if correct0 then 0 else mistakeStreak current + 1 in
  let levelMax := Z.of_nat (length (LEVELS skill)) in
  let '(nextLevel, leveledUp) :=
    if correct0 && (3 <=? nextStreak)
       && Qle_bool ms0 (inject_Z (getTargetMs (level current)))
    then let nl := clamp (level current + 1) 1 levelMax in
         (nl, negb (nl =? level current))
    else (level current, false) in
  let '(nextLevel, leveledDown) :=
    if negb correct0 && (2 <=? nextMistakeStreak)
    then let nl := clamp (level current - 1) 1 levelMax in
         (nl, negb (nl =? level current))
    else (nextLevel, false) in
  set stats skill
    (mkSkillStats nextLevel
       (if correct0 && negb leveledUp then nextStreak else 0)
       (if negb correct0 && negb leveledDown then nextMistakeStreak else 0)
       nextHistory).

(** States reachable from a fresh [createDefaultStats] through results
    fed to [updateStats]. *)
Inductive reachable : Stats -> Prop :=
  | reachable_default : reachable createDefaultStats
  | reachable_update s k c m :
      reachable s -> reachable (updateStats s k c m).

(* ------------------------------------------------------------------ *)
(** ** Skill selector *)

Definition accuracyFromHistory (h : list Result) : Q :=
  if (length h =? 0)%nat then 0%Q
  else
    let correctCount :=
      fold_left (fun total item => total + (if correct item then 1 else 0))
        h 0 in
    (inject_Z correctCount / inject_Z (Z.of_nat (length h)))%Q.

(** [history.length === 0 ? 0.55 : accuracyFromHistory(history)] *)
Definition skillScore (stats : Stats) (skill : SkillKey) : Q :=
  let h := history (get stats skill) in
  if (length h =? 0)%nat then (55 # 100)%Q else accuracyFromHistory h.

(** One iteration of the [forEach] loop: [if (score < weakestScore)]. *)
Definition weakestStep (stats : Stats) (acc : SkillKey * Q) (skill : SkillKey)
    : SkillKey * Q :=
  let score := skillScore stats skill in
  if negb (Qle_bool (snd acc) score) then (skill, score) else acc.

Definition getWeakestSkill (stats : Stats) : SkillKey :=
  fst (fold_left (weakestStep stats) SKILL_LIST (add, 1%Q)).

(** Position of a skill in [SKILL_LIST]. *)
Definition skillIndex (k : SkillKey) : nat :=
  match k with add => 0 | sub => 1 | mul => 2 | div => 3 end.

(* ------------------------------------------------------------------ *)
(** ** Question generator *)

Record Question := mkQuestion {
  qid : string;
  text : string;
  answer : Z;
  qskill : SkillKey;
  qlevel : Z
}.

(** [options?: { allowNegative?: boolean }] *)
Record GenOptions := mkGenOptions { opt_allowNegative : option bool }.

(** [options?.allowNegative] *)
Definition optionsAllowNegative (options : option GenOptions) : option bool :=
  options ≫= opt_allowNegative.

(** [randomInt(min, max)], with the value [rnd] in [[0, 1)] returned by
    [Math.random()] as a parameter.  The bounds of the level table are
    integers, so [Math.ceil] and [Math.floor] leave them unchanged. *)
Definition randomInt (rnd : Q) (min max : Z) : Z :=
  let safeMin := min in
  let safeMax := max in
  Qfloor (rnd * inject_Z (safeMax - safeMin + 1)) + safeMin.

(** [generateQuestion(skill, level, options)]: [rA] and [rB] are the two
    [Math.random()] draws for the operands and [id0] the fresh id token. *)
Definition generateQuestion (skill : SkillKey) (lvl : Z)
    (options : option GenOptions) (rA rB : Q) (id0 : string) : Question :=
  let spec := getLevelSpec skill lvl in
  let minA0 := default 0 (minA spec) in
  let minB0 := default 0 (minB spec) in
  let a := randomInt rA minA0 (maxA spec) in
  let b := randomInt rB minB0 (maxB spec) in
  match skill with
  | add => mkQuestion id0 (pretty a +:+ " + " +:+ pretty b) (a + b) skill lvl
  | sub =>
      let allowNeg :=
        match optionsAllowNegative options with
        | Some v => v
        | None => match allowNegative spec with Some v => v | None => false end
        end in
      let high := if allowNeg then a else Z.max a b in
      let low := if allowNeg then b else Z.min a b in
      mkQuestion id0 (pretty high +:+ " - " +:+ pretty low) (high - low)
        skill lvl
  | mul => mkQuestion id0 (pretty a +:+ " x " +:+ pretty b) (a * b) skill lvl
  | div =>
      let divisor := Z.max 1 a in
      let quotient := b in
      let dividend := divisor * quotient in
      mkQuestion id0 (pretty dividend +:+ " / " +:+ pretty divisor) quotient
        skill lvl
  end.

(* ------------------------------------------------------------------ *)
(** ** Mistake ledger ([app/page.tsx]) *)

Record MistakeItem := mkMistakeItem {
  mid : string;
  mtext : string;
  manswer : Z;
  mskill : SkillKey;
  mlevel : Z;
  misses : Z;
  lastMissedAt : Z
}.

Definition MAX_MISTAKES : nat := 50.

Definition makeMistakeId (question : Question) : string :=
  skillName (qskill question) +:+ ":" +:+ text question.

(** [Array.prototype.findIndex], [None] standing for [-1]. *)
Fixpoint findIndex {A} (p : A -> bool) (l : list A) : option nat :=
  match l with
  | [] => None
  | x :: l' => if p x then Some 0%nat else S <$> findIndex p l'
  end.

(** [addMistakeEntry(items, question)], with [Date.now()] as [now].  The
    [None] branch of the lookup is unreachable: [findIndex] returns an
    index of the list. *)
Definition addMistakeEntry (items : list MistakeItem) (question : Question)
    (now : Z) : list MistakeItem :=
  let id := makeMistakeId question in
  match findIndex (fun item => String.eqb (mid item) id) items with
  | None =>
      take MAX_MISTAKES
        (mkMistakeItem id (text question) (answer question) (qskill question)
           (qlevel question) 1 now :: items)
  | Some existingIndex =>
      let next := items in
      match next !! existingIndex with
      | Some existing =>
          (* next.splice(existingIndex, 1) *)
          let next' := take existingIndex next ++ drop (S existingIndex) next in
          take MAX_MISTAKES
            (mkMistakeItem (mid existing) (mtext existing) (answer question)
               (mskill existing) (qlevel question) (misses existing + 1) now
             :: next')
      | None => items
      end
  end.

(* ------------------------------------------------------------------ *)
(** ** Derived statistics and skill picking *)

Definition getAccuracy (stats : SkillStats) : Q :=
  accuracyFromHistory (history stats).


(** [Math.max(0.15, 1 - accuracy)] *)
Definition skillWeight (stats : Stats) (skill : SkillKey) : Q :=
  let h := history (get stats skill) in
  let accuracy := if (length h =? 0)%nat then (55 # 100)%Q
                  else accuracyFromHistory h in
  if Qle_bool (1 - accuracy) (15 # 100) then (15 # 100)%Q else (1 - accuracy)%Q.

(** The [for ... of] loop of [pickSkill]: subtract each weight from the
    roll and return the first skill where it is no longer positive. *)
Fixpoint pickLoop (weighted : list (SkillKey * Q)) (roll : Q) : SkillKey :=
  match weighted with
  | [] => add
  | (skill, weight) :: rest =>
      let roll' := (roll - weight)%Q in
      if Qle_bool roll' 0 then skill else pickLoop rest roll'
  end.

(** [pickSkill(stats)], with the [Math.random()] value [rnd] as a
    parameter and exact rational arithmetic for the weights. *)
Definition pickSkill (stats : Stats) (rnd : Q) : SkillKey :=
  let weighted := map (fun skill => (skill, skillWeight stats skill)) SKILL_LIST in
  let total := fold_left (fun sum item => sum + snd item)%Q weighted 0%Q in
  pickLoop weighted (rnd * total)%Q.

(** [Mode = SkillKey | "mix"] *)
Inductive Mode := ModeSkill (k : SkillKey) | mix.

(** [createQuestion(selectedMode, snapshot, negativeLevel)] of
    [app/page.tsx]; [rPick] is the draw of [pickSkill]. *)
Definition createQuestion (selectedMode : Mode) (snapshot : Stats)
    (negativeLevel : Z) (rPick rA rB : Q) (id0 : string) : Question :=
  let skill := match selectedMode with
               | mix => pickSkill snapshot rPick
               | ModeSkill k => k
               end in
  let lvl := level (get snapshot skill) in
  let allowNeg := bool_decide (skill = sub) && (0 <? negativeLevel)
                  && (negativeLevel <=? lvl) in
  generateQuestion skill lvl (Some (mkGenOptions (Some allowNeg))) rA rB id0.

(* ------------------------------------------------------------------ *)
(** ** More of the mistake ledger and the session driver *)

Definition removeMistakeEntry (items : list MistakeItem) (question : Question)
    : list MistakeItem :=
  List.filter (fun item => negb (String.eqb (mid item) (makeMistakeId question)))
    items.

(** [buildMistakeQuestion(item)]; [suffix] stands for
    [`${Date.now()}-${random hex}`]. *)
Definition buildMistakeQuestion (item : MistakeItem) (suffix : string) : Question :=
  mkQuestion (mid item +:+ "-" +:+ suffix) (mtext item) (manswer item)
    (mskill item) (mlevel item).

(** The comparator of [startMistakeSession]. *)
Definition mistakeCompare (a b : MistakeItem) : Z :=
  if negb (misses b =? misses a) then misses b - misses a
  else lastMissedAt b - lastMissedAt a.

(** [a] may precede [b] in the sorted array. *)
Definition mistakeBefore (a b : MistakeItem) : Prop := mistakeCompare a b <= 0.

#[global] Instance mistakeBefore_dec a b : Decision (mistakeBefore a b).
Proof. unfold mistakeBefore. apply _. Defined.



Record Settings := mkSettings {
  questionCount : Z;
  timeLimitSeconds : Z;
  negativeLevel : Z
}.

Definition adjustQuestionCount (prev : Settings) (delta : Z) : Settings :=
  let next := Z.min (Z.max (questionCount prev + delta) 5) 50 in
  mkSettings next (timeLimitSeconds prev) (negativeLevel prev).

Definition adjustTimeLimit (prev : Settings) (delta : Z) : Settings :=
  let next := Z.min (Z.max (timeLimitSeconds prev + delta) 5) 60 in
  mkSettings (questionCount prev) next (negativeLevel prev).

Definition adjustNegativeLevel (prev : Settings) (delta : Z) : Settings :=
  let next := Z.min (Z.max (negativeLevel prev + delta) 0) MAX_LEVEL in
  mkSettings (questionCount prev) (timeLimitSeconds prev) next.

(** [gcd(a, b)] of [app/page.tsx]: Euclid's loop on [|a|] and [|b|].  The
    loop runs at most [|b| + 1] times ([y] strictly decreases), which is
    the fuel given to it. *)
Fixpoint gcdLoop (fuel : nat) (x y : Z) : Z :=
  match fuel with
  | O => x
  | S fuel' => if y =? 0 then x else gcdLoop fuel' y (Z.rem x y)
  end.

Definition gcd (a b : Z) : Z :=
  gcdLoop (S (Z.to_nat (Z.abs b))) (Z.abs a) (Z.abs b).

(** The state update of [handleKeypadPress] on the typed answer [prev]
    (the [answered] guard and the error reset are left to the caller). *)
Definition keypadPress (prev : string) (key : string) (allowNegativeAnswer : bool)
    : string :=
  if String.eqb key "CLR" then ""
  else if String.eqb key "DEL" then
    (* prev.slice(0, -1) *)
    String.substring 0 (String.length prev - 1) prev
  else if String.eqb key "-" then
    if negb allowNegativeAnswer then prev
    else if String.prefix "-" prev then String.substring 1 (String.length prev - 1) prev
    else if (String.length prev =? 0)%nat then "-"
    else if String.eqb prev "0" then "-0"
    else "-" +:+ prev
  else if String.eqb prev "0" then key
  else if String.eqb prev "-0" then "-" +:+ key
  else prev +:+ key.

(** The digit keys of the keypad. *)
Definition digitKeys : list string :=
  ["0"; "1"; "2"; "3"; "4"; "5"; "6"; "7"; "8"; "9"].

(** An entry is well keyed when its id is [skill + ":" + text], as every
    entry created by [addMistakeEntry] is. *)
Definition wellKeyed (it : MistakeItem) : Prop :=
  mid it = skillName (mskill it) +:+ ":" +:+ mtext it.

Definition DEFAULT_SETTINGS : Settings := mkSettings 10 10 0.




(** [keypadRows] of [app/page.tsx]: the keys shown, by [allowNegativeAnswer]. *)
Definition keypadRows (allowNegativeAnswer : bool) : list (list string) :=
  if allowNegativeAnswer then
    [["7"; "8"; "9"]; ["4"; "5"; "6"]; ["1"; "2"; "3"]; ["-"; "0"; "DEL"; "CLR"]]
  else
    [["7"; "8"; "9"]; ["4"; "5"; "6"]; ["1"; "2"; "3"]; ["CLR"; "0"; "DEL"]].

(** Shapes of a typed answer: a run of decimal digits with no leading
    zero (["0"] itself allowed), optionally after one ["-"]. *)
Definition isDigit (c : Ascii.ascii) : bool :=
  (48 <=? Ascii.nat_of_ascii c)%nat && (Ascii.nat_of_ascii c <=? 57)%nat.

Fixpoint allDigits (s : string) : bool :=
  match s with
  | EmptyString => true
  | String c r => isDigit c && allDigits r
  end.

Definition noLeadingZero (s : string) : bool :=
  match s with
  | String c (String _ _) => negb (Ascii.eqb c "0"%char)
  | _ => true
  end.

Definition numeral (s : string) : bool := allDigits s && noLeadingZero s.

Definition keypadAnswerOk (s : string) : bool :=
  match s with
  | EmptyString => true
  | String c r => if Ascii.eqb c "-"%char then numeral r else numeral s
  end.

(** Digits with at most one leading ["-"] (leading zeros allowed). *)
Definition signedDigits (s : string) : bool :=
  match s with
  | EmptyString => true
  | String c r => if Ascii.eqb c "-"%char then allDigits r else allDigits s
  end.

(** The digits of a string, in order. *)
Fixpoint onlyDigits (s : string) : string :=
  match s with
  | EmptyString => EmptyString
  | String c r => if isDigit c then String c (onlyDigits r) else onlyDigits r
  end.

(** [raw.replace(/[^0-9-]/g, "")] *)
Fixpoint stripInvalid (s : string) : string :=
  match s with
  | EmptyString => EmptyString
  | String c r =>
      if isDigit c || Ascii.eqb c "-"%char then String c (stripInvalid r)
      else stripInvalid r
  end.

(** [s.replace(/-/g, "")] *)
Fixpoint removeMinus (s : string) : string :=
  match s with
  | EmptyString => EmptyString
  | String c r =>
      if Ascii.eqb c "-"%char then removeMinus r else String c (removeMinus r)
  end.

(** [s.replace(/(?!^)-/g, "")]: every ["-"] except one at index 0. *)
Definition removeInnerMinus (s : string) : string :=
  match s with
  | EmptyString => EmptyString
  | String c r => String c (removeMinus r)
  end.

(** [s.includes("-")] *)
Fixpoint includesMinus (s : string) : bool :=
  match s with
  | EmptyString => false
  | String c r => Ascii.eqb c "-"%char || includesMinus r
  end.

(** The [onChange] handler of the typed answer input in [app/page.tsx]
    (strings as 8-bit characters). *)
Definition cleanAnswerInput (raw : string) (allowNegativeAnswer : bool) : string :=
  let cleaned := stripInvalid raw in
  if negb allowNegativeAnswer then removeMinus cleaned
  else if includesMinus cleaned then removeInnerMinus cleaned
  else cleaned.

(** The stored [popUnderAdLastShown] entry as [showPopUnder] reads it:
    missing or empty, not parsed by [Number.parseInt] to a finite number,
    or the time of the last display.  The entry written is
    [Date.now().toString()], which reads back as that time. *)
Inductive PopUnderStored := Missing | Unparsable | ShownAt (t : Z).

Definition POP_UNDER_FREQUENCY_MS : Z := 60 * 60 * 1000.

(** [showPopUnder()] of [lib/math.ts] (the version with an hourly limit):
    [check] is the [Date.now()] of the test, [write] that of the update.
    Returns whether the script is appended, and the stored entry after. *)
Definition showPopUnder (stored : PopUnderStored) (check write : Z)
    : bool * PopUnderStored :=
  match stored with
  | ShownAt lastShownTime =>
      if check - lastShownTime <? POP_UNDER_FREQUENCY_MS then (false, stored)
      else (true, ShownAt write)
  | _ => (true, ShownAt write)
  end.

(** Successive calls of [showPopUnder], each with its two clock readings,
    the stored entry passed from one call to the next; the result lists
    the times written at the calls that showed the pop-under. *)
Fixpoint popUnderRun (stored : PopUnderStored) (calls : list (Z * Z)) : list Z :=
  match calls with
  | [] => []
  | (check, write) :: rest =>
      let (shown, stored') := showPopUnder stored check write in
      (if shown then [write] else []) ++ popUnderRun stored' rest
  end.

(** [prev.slice(0, -1)] on strings, by recursion. *)
Fixpoint dropLast (s : string) : string :=
  match s with
  | EmptyString => EmptyString
  | String _ EmptyString => EmptyString
  | String c r => String c (dropLast r)
  end.

(** The keys to press to type [s], one per character. *)
Fixpoint keysOf (s : string) : list string :=
  match s with
  | EmptyString => []
  | String c r => String c EmptyString :: keysOf r
  end.

(** Strings of digits and ["-"] only. *)
Fixpoint digitsOrMinus (s : string) : bool :=
  match s with
  | EmptyString => true
  | String c r => (isDigit c || Ascii.eqb c "-"%char) && digitsOrMinus r
  end.

Example updateStats_mul_example :
  let s := updateStats (updateStats (updateStats createDefaultStats mul true 1000)
                          mul true 1000) mul true 1000 in
  level (get s mul) = 2 /\ streak (get s mul) = 0.
Proof. vm_compute. split; reflexivity. Qed.

(* ------------------------------------------------------------------ *)
(** ** Basic facts about the state *)

Lemma get_set_same s k v : get (set s k v) k = v.
Proof. by destruct k. Qed.

Lemma get_set_other s k k' v : k' <> k -> get (set s k v) k' = get s k'.
Proof. intros Hne. destruct k, k'; simpl; congruence. Qed.

Lemma LEVELS_length k : length (LEVELS k) = 12%nat.
Proof. by destruct k. Qed.

Lemma MAX_LEVEL_12 : MAX_LEVEL = 12.
Proof. reflexivity. Qed.

(** Unfolds [updateStats] and splits its two level rules. *)
Ltac upd_cases :=
  unfold updateStats; cbv zeta; rewrite ?LEVELS_length;
  repeat (case_match; simplify_eq/=); rewrite ?get_set_same; cbn [level streak mistakeStreak history].

(** Turns the boolean tests of [updateStats] into propositions. *)
Ltac bool_facts :=
  repeat match goal with
  | H : _ && _ = true |- _ => apply andb_true_iff in H as [? ?]
  | H : _ && _ = false |- _ => apply andb_false_iff in H as [?|?]
  | H : negb _ = true |- _ => apply negb_true_iff in H
  | H : negb _ = false |- _ => apply negb_false_iff in H
  | H : (_ <=? _) = true |- _ => apply Z.leb_le in H
  | H : (_ <=? _) = false |- _ => apply Z.leb_gt in H
  | H : (_ =? _) = true |- _ => apply Z.eqb_eq in H
  | H : (_ =? _) = false |- _ => apply Z.eqb_neq in H
  | H : Qle_bool _ _ = true |- _ => apply Qle_bool_iff in H
  | H : Qle_bool _ _ = false |- _ =>
      rewrite <- not_true_iff_false, Qle_bool_iff in H
  end;
  change (Z.of_nat 12) with 12 in *; unfold clamp in *.

Lemma upd_correct_noup s k m :
  streak (get s k) + 1 < 3 ->
  level (get (updateStats s k true m) k) = level (get s k) /\
  streak (get (updateStats s k true m) k) = streak (get s k) + 1 /\
  mistakeStreak (get (updateStats s k true m) k) = 0.
Proof. intros H. upd_cases; bool_facts; lia. Qed.

Lemma upd_correct_up s k m :
  3 <= streak (get s k) + 1 ->
  (m <= inject_Z (getTargetMs (level (get s k))))%Q ->
  1 <= level (get s k) < 12 ->
  level (get (updateStats s k true m) k) = level (get s k) + 1 /\
  streak (get (updateStats s k true m) k) = 0 /\
  mistakeStreak (get (updateStats s k true m) k) = 0.
Proof. intros H Hm Hl. upd_cases; bool_facts; try lia; contradiction. Qed.

Lemma upd_wrong_nodown s k m :
  mistakeStreak (get s k) + 1 < 2 ->
  level (get (updateStats s k false m) k) = level (get s k) /\
  streak (get (updateStats s k false m) k) = 0 /\
  mistakeStreak (get (updateStats s k false m) k) = mistakeStreak (get s k) + 1.
Proof. intros H. upd_cases; bool_facts; lia. Qed.

Lemma upd_wrong_down s k m :
  2 <= mistakeStreak (get s k) + 1 ->
  2 <= level (get s k) <= 12 ->
  level (get (updateStats s k false m) k) = level (get s k) - 1 /\
  streak (get (updateStats s k false m) k) = 0 /\
  mistakeStreak (get (updateStats s k false m) k) = 0.
Proof. intros H Hl. upd_cases; bool_facts; lia. Qed.

Lemma upd_wrong_floor s k m :
  2 <= mistakeStreak (get s k) + 1 ->
  level (get s k) = 1 ->
  level (get (updateStats s k false m) k) = 1 /\
  streak (get (updateStats s k false m) k) = 0 /\
  mistakeStreak (get (updateStats s k false m) k) = mistakeStreak (get s k) + 1.
Proof. intros H Hl. upd_cases; bool_facts; lia. Qed.

Lemma upd_other s k c m k' :
  k' <> k -> get (updateStats s k c m) k' = get s k'.
Proof.
  intros Hne. unfold updateStats; cbv zeta.
  repeat (case_match; simplify_eq/=); by apply get_set_other.
Qed.

Lemma upd_level_range s k c m :
  1 <= level (get s k) <= 12 ->
  1 <= level (get (updateStats s k c m) k) <= 12.
Proof. intros H. upd_cases; bool_facts; lia. Qed.

Lemma upd_streaks_exclusive s k c m :
  streak (get (updateStats s k c m) k) = 0 \/
  mistakeStreak (get (updateStats s k c m) k) = 0.
Proof. upd_cases; auto. Qed.

Lemma upd_history s k c m :
  history (get (updateStats s k c m) k) =
  sliceLast MAX_HISTORY (history (get s k) ++ [mkResult c m]).
Proof. by upd_cases. Qed.

Example weakest_empty_example : getWeakestSkill createDefaultStats = add.
Proof. reflexivity. Qed.

Example div_example :
  generateQuestion div 3 None (1#2) (1#3) "q" =
  mkQuestion "q" "28 / 7" 4 div 3.
Proof. vm_compute. reflexivity. Qed.

Example sub_example :
  answer (generateQuestion sub 1 None (1#10) (9#10) "q") = 8 /\
  answer (generateQuestion sub 1 (Some (mkGenOptions (Some true))) (1#10) (9#10) "q") = -8.
Proof. vm_compute. split; reflexivity. Qed.

Lemma reachable_streaks s :
  reachable s -> forall k, streak (get s k) = 0 \/ mistakeStreak (get s k) = 0.
Proof.
  induction 1 as [|s k c m Hr IH]; intros k'.
  - destruct k'; simpl; auto.
  - destruct (decide (k' = k)) as [->|Hne].
    + apply upd_streaks_exclusive.
    + rewrite upd_other by done. apply IH.
Qed.

Lemma fold_count_bounds (h : list Result) (acc : Z) :
  acc <= fold_left (fun total item => total + (if correct item then 1 else 0)) h acc
      <= acc + Z.of_nat (length h).
Proof.
  revert acc. induction h as [|r h IH]; intros acc; simpl; [lia|].
  specialize (IH (acc + (if correct r then 1 else 0))).
  destruct (correct r); lia.
Qed.

Lemma skillScore_bounds s k : (0 <= skillScore s k <= 1)%Q.
Proof.
  unfold skillScore, accuracyFromHistory.
  destruct (length (history (get s k)) =? 0)%nat eqn:E; [split; discriminate|].
  apply Nat.eqb_neq in E.
  pose proof (fold_count_bounds (history (get s k)) 0) as Hc.
  set (c := fold_left _ _ 0) in *.
  set (n := Z.of_nat (length (history (get s k)))) in *.
  assert (Hn : (inject_Z 0 < inject_Z n)%Q) by (rewrite <- Zlt_Qlt; lia).
  split.
  - apply Qle_shift_div_l; [exact Hn|].
    rewrite Qmult_0_l. change 0%Q with (inject_Z 0). rewrite <- Zle_Qle. lia.
  - apply Qle_shift_div_r; [exact Hn|].
    rewrite Qmult_1_l, <- Zle_Qle. lia.
Qed.

Lemma weakest_min_first s :
  (forall k, (skillScore s (getWeakestSkill s) <= skillScore s k)%Q) /\
  (forall k, (skillIndex k < skillIndex (getWeakestSkill s))%nat ->
             (skillScore s (getWeakestSkill s) < skillScore s k)%Q).
Proof.
  pose proof (skillScore_bounds s add) as B1.
  pose proof (skillScore_bounds s sub) as B2.
  pose proof (skillScore_bounds s mul) as B3.
  pose proof (skillScore_bounds s div) as B4.
  unfold getWeakestSkill. cbn [fold_left SKILL_LIST].
  unfold weakestStep.
  set (x1 := skillScore s add) in *. set (x2 := skillScore s sub) in *.
  set (x3 := skillScore s mul) in *. set (x4 := skillScore s div) in *.
  repeat (case_match; simplify_eq/=);
  split; intros []; simpl; intros;
  fold x1 x2 x3 x4;
  repeat match goal with
  | H : negb _ = true |- _ => apply negb_true_iff in H
  | H : negb _ = false |- _ => apply negb_false_iff in H
  | H : Qle_bool _ _ = true |- _ => apply Qle_bool_iff in H
  | H : Qle_bool ?a ?b = false |- _ =>
      assert (b < a)%Q
        by (apply Qnot_le_lt; intros HH; apply Qle_bool_iff in HH; congruence);
      clear H
  end;
  clearbody x1 x2 x3 x4; try lia; lra.
Qed.

Lemma findIndex_none {A} (p : A -> bool) (l : list A) :
  Forall (fun x => p x = false) l -> findIndex p l = None.
Proof. induction 1 as [|x l Hx _ IH]; simpl; [done|]. by rewrite Hx, IH. Qed.

Lemma findIndex_app {A} (p : A -> bool) (pre : list A) (x : A) (post : list A) :
  Forall (fun y => p y = false) pre -> p x = true ->
  findIndex p (pre ++ x :: post) = Some (length pre).
Proof.
  intros Hpre Hx. induction Hpre as [|y pre Hy _ IH]; simpl.
  - by rewrite Hx.
  - by rewrite Hy, IH.
Qed.

Lemma findIndex_lookup {A} (p : A -> bool) (l : list A) i :
  findIndex p l = Some i -> exists x, l !! i = Some x /\ p x = true.
Proof.
  revert i. induction l as [|x l IH]; intros i; simpl; [done|].
  destruct (p x) eqn:Hx.
  - intros [= <-]. by exists x.
  - destruct (findIndex p l) as [j|] eqn:Hj; simpl; [|done].
    intros [= <-]. destruct (IH j eq_refl) as (y & Hy & Hpy). by exists y.
Qed.

Lemma mid_neq_eqb (key : string) (l : list MistakeItem) :
  Forall (fun it => mid it <> key) l ->
  Forall (fun it => String.eqb (mid it) key = false) l.
Proof.
  intros Hl. eapply Forall_impl; [exact Hl|]. intros it H. by apply String.eqb_neq.
Qed.

Lemma addMistakeEntry_length items q now :
  (length (addMistakeEntry items q now) <= 50)%nat.
Proof.
  unfold addMistakeEntry.
  destruct (findIndex _ items) as [i|] eqn:Hi.
  - destruct (findIndex_lookup _ _ _ Hi) as (x & Hx & _). rewrite Hx.
    rewrite length_take. unfold MAX_MISTAKES. lia.
  - rewrite length_take. unfold MAX_MISTAKES. lia.
Qed.

(* ================================================================== *)
(** * Claims *)

(** C1. From a SkillStats with [streak = 0] and level [L] in
    [[1, MAX_LEVEL)], three consecutive correct results, each within
    [getTargetMs L], leave the level at [L] after the first two and raise
    it to exactly [L + 1] with [streak = 0] after the third. *)
Theorem updateStats_three_correct_level_up s k ms1 ms2 ms3 :
  streak (get s k) = 0 ->
  1 <= level (get s k) < MAX_LEVEL ->
  (ms1 <= inject_Z (getTargetMs (level (get s k))))%Q ->
  (ms2 <= inject_Z (getTargetMs (level (get s k))))%Q ->
  (ms3 <= inject_Z (getTargetMs (level (get s k))))%Q ->
  let s1 := updateStats s k true ms1 in
  let s2 := updateStats s1 k true ms2 in
  let s3 := updateStats s2 k true ms3 in
  level (get s1 k) = level (get s k) /\
  level (get s2 k) = level (get s k) /\
  level (get s3 k) = level (get s k) + 1 /\
  streak (get s3 k) = 0.
Proof.
  rewrite MAX_LEVEL_12. intros Hst Hl H1 H2 H3 s1 s2 s3.
  destruct (upd_correct_noup s k ms1) as (L1 & S1 & _); [lia|].
  fold s1 in L1, S1.
  destruct (upd_correct_noup s1 k ms2) as (L2 & S2 & _); [lia|].
  fold s2 in L2, S2.
  destruct (upd_correct_up s2 k ms3) as (L3 & S3 & _);
    [lia | rewrite L2, L1; exact H3 | lia |].
  fold s3 in L3, S3.
  repeat split; lia.
Qed.

Lemma updateStats_three_correct_level_up_witness :
  (streak (get createDefaultStats mul) = 0 /\
   1 <= level (get createDefaultStats mul) < MAX_LEVEL /\
   (1000 <= inject_Z (getTargetMs (level (get createDefaultStats mul))))%Q) /\
  let s1 := updateStats createDefaultStats mul true 1000 in
  let s2 := updateStats s1 mul true 1000 in
  let s3 := updateStats s2 mul true 1000 in
  level (get s1 mul) = level (get createDefaultStats mul) /\
  level (get s2 mul) = level (get createDefaultStats mul) /\
  level (get s3 mul) = level (get createDefaultStats mul) + 1 /\
  streak (get s3 mul) = 0.
Proof.
  split; [split; [reflexivity | split; [unfold MAX_LEVEL; simpl; lia
                                        | apply Qle_bool_iff; reflexivity]]|].
  apply (updateStats_three_correct_level_up createDefaultStats mul 1000 1000 1000).
  - reflexivity.
  - unfold MAX_LEVEL; simpl; lia.
  - apply Qle_bool_iff; reflexivity.
  - apply Qle_bool_iff; reflexivity.
  - apply Qle_bool_iff; reflexivity.
Defined.

(** C2 (counterexample). At level 1 two consecutive misses neither lower
    the level nor reset [mistakeStreak]: from the default stats the level
    stays 1 and [mistakeStreak] is 2. *)
Lemma updateStats_two_misses_counterexample :
  let s := createDefaultStats in
  let s2 := updateStats (updateStats s add false 1000) add false 1000 in
  ~ (level (get s2 add) = level (get s add) - 1 /\
     mistakeStreak (get s2 add) = 0).
Proof. vm_compute. intros [H _]. discriminate H. Qed.

(** C2 (amended). From a SkillStats with [mistakeStreak = 0] and level [L]
    in [[1, MAX_LEVEL]], two consecutive misses leave [L] after the first;
    after the second, if [L >= 2] the level is [L - 1] and
    [mistakeStreak] is 0, and if [L = 1] the level stays 1 and
    [mistakeStreak] is 2. *)
Theorem updateStats_two_misses s k ms1 ms2 :
  mistakeStreak (get s k) = 0 ->
  1 <= level (get s k) <= MAX_LEVEL ->
  let s1 := updateStats s k false ms1 in
  let s2 := updateStats s1 k false ms2 in
  level (get s1 k) = level (get s k) /\
  (2 <= level (get s k) ->
     level (get s2 k) = level (get s k) - 1 /\ mistakeStreak (get s2 k) = 0) /\
  (level (get s k) = 1 ->
     level (get s2 k) = 1 /\ mistakeStreak (get s2 k) = 2).
Proof.
  rewrite MAX_LEVEL_12. intros Hm Hl s1 s2.
  destruct (upd_wrong_nodown s k ms1) as (L1 & _ & M1); [lia|].
  fold s1 in L1, M1.
  split; [exact L1|split]; intros HL.
  - destruct (upd_wrong_down s1 k ms2) as (L2 & _ & M2); [lia|lia|].
    fold s2 in L2, M2. lia.
  - destruct (upd_wrong_floor s1 k ms2) as (L2 & _ & M2); [lia|lia|].
    fold s2 in L2, M2. lia.
Qed.

Lemma updateStats_two_misses_witness :
  (mistakeStreak (get createDefaultStats sub) = 0 /\
   1 <= level (get createDefaultStats sub) <= MAX_LEVEL) /\
  let s1 := updateStats createDefaultStats sub false 800 in
  let s2 := updateStats s1 sub false 800 in
  level (get s1 sub) = level (get createDefaultStats sub) /\
  (2 <= level (get createDefaultStats sub) ->
     level (get s2 sub) = level (get createDefaultStats sub) - 1 /\
     mistakeStreak (get s2 sub) = 0) /\
  (level (get createDefaultStats sub) = 1 ->
     level (get s2 sub) = 1 /\ mistakeStreak (get s2 sub) = 2).
Proof.
  split; [split; [reflexivity | unfold MAX_LEVEL; simpl; lia]|].
  apply (updateStats_two_misses createDefaultStats sub 800 800).
  - reflexivity.
  - unfold MAX_LEVEL; simpl; lia.
Defined.

(** C3 (counterexample). The fresh state itself has [streak = 0] and
    [mistakeStreak = 0], so it is not true that exactly one of them is
    nonzero. *)
Lemma streaks_exactly_one_counterexample :
  reachable createDefaultStats /\
  ~ ((streak (get createDefaultStats add) <> 0 /\
      mistakeStreak (get createDefaultStats add) = 0) \/
     (streak (get createDefaultStats add) = 0 /\
      mistakeStreak (get createDefaultStats add) <> 0)).
Proof.
  split; [constructor|].
  simpl. intros [[H _]|[_ H]]; apply H; reflexivity.
Qed.

(** C3 (amended). In every state reachable from [createDefaultStats] by
    [updateStats] calls, for each skill at most one of [streak] and
    [mistakeStreak] is nonzero. *)
Theorem reachable_at_most_one_streak s k :
  reachable s -> streak (get s k) = 0 \/ mistakeStreak (get s k) = 0.
Proof. intros Hr. exact (reachable_streaks s Hr k). Qed.

Lemma reachable_at_most_one_streak_witness :
  reachable (updateStats createDefaultStats div true 1500) /\
  (streak (get (updateStats createDefaultStats div true 1500) div) = 0 \/
   mistakeStreak (get (updateStats createDefaultStats div true 1500) div) = 0).
Proof.
  split; [constructor; constructor|].
  apply reachable_at_most_one_streak. constructor. constructor.
Defined.

(** C6. The history returned by [updateStats] has at most 12 entries, and
    it is the old history with its oldest entries dropped (as many as
    needed to keep 11 of them) followed by the new result, newest last.
    In particular a full history of 12 loses exactly its oldest entry. *)
Theorem updateStats_history_fifo s k c m :
  let h := history (get s k) in
  let h' := history (get (updateStats s k c m) k) in
  (length h' <= 12)%nat /\
  h' = drop (length h - 11) h ++ [mkResult c m] /\
  (length h = 12%nat -> h' = tail h ++ [mkResult c m]).
Proof.
  intros h h'. subst h h'. rewrite upd_history. unfold sliceLast, MAX_HISTORY.
  set (h := history (get s k)).
  rewrite length_app. simpl.
  replace (length h + 1 - 12)%nat with (length h - 11)%nat by lia.
  rewrite drop_app_le by lia.
  split; [|split].
  - rewrite length_app, length_drop. simpl. lia.
  - reflexivity.
  - intros Hlen. rewrite Hlen. simpl.
    destruct h; [discriminate|]. reflexivity.
Qed.

Lemma updateStats_history_fifo_witness :
  let s := createDefaultStats in
  let h := history (get s add) in
  let h' := history (get (updateStats s add true 900) add) in
  (length h' <= 12)%nat /\
  h' = drop (length h - 11) h ++ [mkResult true 900] /\
  (length h = 12%nat -> h' = tail h ++ [mkResult true 900]).
Proof. apply (updateStats_history_fifo createDefaultStats add true 900). Defined.

(** C7. If every skill's level lies in [[1, MAX_LEVEL]], then after any
    [updateStats] every skill's level still lies in [[1, MAX_LEVEL]]: the
    level is never raised above [MAX_LEVEL] nor lowered below 1. *)
Theorem updateStats_level_in_range s k c m :
  (forall k', 1 <= level (get s k') <= MAX_LEVEL) ->
  forall k', 1 <= level (get (updateStats s k c m) k') <= MAX_LEVEL.
Proof.
  rewrite MAX_LEVEL_12. intros Hall k'.
  destruct (decide (k' = k)) as [->|Hne].
  - apply upd_level_range, Hall.
  - rewrite upd_other by done. apply Hall.
Qed.

Lemma updateStats_level_in_range_witness :
  (forall k', 1 <= level (get createDefaultStats k') <= MAX_LEVEL) /\
  1 <= level (get (updateStats createDefaultStats add false 100) add) <= MAX_LEVEL.
Proof.
  assert (H : forall k', 1 <= level (get createDefaultStats k') <= MAX_LEVEL)
    by (intros []; unfold MAX_LEVEL; simpl; lia).
  split; [exact H|].
  exact (updateStats_level_in_range createDefaultStats add false 100 H add).
Defined.

(** C8. [getWeakestSkill] returns a skill of least score (the history
    accuracy, or 0.55 for an empty history), every skill before it in the
    order add, sub, mul, div has a strictly greater score (ties go to the
    first), and with all histories empty it returns [add]. *)
Theorem getWeakestSkill_spec s :
  (forall k, skillScore s k =
     if (length (history (get s k)) =? 0)%nat then (55 # 100)%Q
     else accuracyFromHistory (history (get s k))) /\
  (forall k, (skillScore s (getWeakestSkill s) <= skillScore s k)%Q) /\
  (forall k, (skillIndex k < skillIndex (getWeakestSkill s))%nat ->
             (skillScore s (getWeakestSkill s) < skillScore s k)%Q) /\
  ((forall k, history (get s k) = []) -> getWeakestSkill s = add).
Proof.
  destruct (weakest_min_first s) as [Hmin Hfirst].
  split; [reflexivity|]. split; [exact Hmin|]. split; [exact Hfirst|].
  intros Hempty.
  assert (Hsc : forall k, skillScore s k = (55 # 100)%Q)
    by (intros k; unfold skillScore; rewrite Hempty; reflexivity).
  destruct (getWeakestSkill s) eqn:E; [reflexivity| | |];
    specialize (Hfirst add); rewrite !Hsc in Hfirst;
    (assert (HQ : (55 # 100 < 55 # 100)%Q) by (apply Hfirst; simpl; lia));
    apply Qlt_irrefl in HQ; contradiction.
Qed.

Lemma getWeakestSkill_spec_witness :
  getWeakestSkill createDefaultStats = add.
Proof.
  apply (getWeakestSkill_spec createDefaultStats).
  intros []; reflexivity.
Defined.

(** C10. [updateStats s k c m] maps every skill other than [k] to the
    same SkillStats as [s]. *)
Theorem updateStats_frame s k c m k' :
  k' <> k -> get (updateStats s k c m) k' = get s k'.
Proof. intros Hne. exact (upd_other s k c m k' Hne). Qed.

Lemma updateStats_frame_witness :
  sub <> add /\
  get (updateStats createDefaultStats add true 100) sub = get createDefaultStats sub.
Proof.
  split; [discriminate|].
  apply updateStats_frame. discriminate.
Defined.

(** C4. Every "div" question, for any level, options and operand draws,
    has a divisor [>= 1] and a dividend such that its text is
    ["dividend / divisor"] and [answer * divisor = dividend]: the division
    is exact and the answer is the quotient. *)
Theorem generateQuestion_div_exact lvl options rA rB id0 :
  let q := generateQuestion div lvl options rA rB id0 in
  exists divisor dividend,
    1 <= divisor /\
    text q = pretty dividend +:+ " / " +:+ pretty divisor /\
    answer q * divisor = dividend /\
    dividend mod divisor = 0 /\
    dividend / divisor = answer q.
Proof.
  unfold generateQuestion. cbv zeta.
  set (a := randomInt rA _ _). set (b := randomInt rB _ _).
  exists (Z.max 1 a), (Z.max 1 a * b). cbn [text answer].
  assert (Hd : 1 <= Z.max 1 a) by lia.
  split_and!; [exact Hd | reflexivity | lia | |].
  - rewrite Z.mul_comm. apply Z.mod_mul. lia.
  - rewrite Z.mul_comm. apply Z.div_mul. lia.
Qed.

(** C5. For "sub": when negatives are disallowed ([options.allowNegative]
    is false, or it is absent and the level spec leaves [allowNegative]
    unset) the text is ["max(A,B) - min(A,B)"] and the answer is
    [max(A,B) - min(A,B) >= 0]; when negatives are allowed the operands
    keep their drawn order and the answer is [A - B]. *)
Theorem generateQuestion_sub_order lvl options rA rB id0 :
  let spec := getLevelSpec sub lvl in
  let a := randomInt rA (default 0 (minA spec)) (maxA spec) in
  let b := randomInt rB (default 0 (minB spec)) (maxB spec) in
  let q := generateQuestion sub lvl options rA rB id0 in
  ((optionsAllowNegative options = Some false \/
    (optionsAllowNegative options = None /\ allowNegative spec = None)) ->
   answer q = Z.max a b - Z.min a b /\ 0 <= answer q /\
   text q = pretty (Z.max a b) +:+ " - " +:+ pretty (Z.min a b)) /\
  ((optionsAllowNegative options = Some true \/
    (optionsAllowNegative options = None /\ allowNegative spec = Some true)) ->
   answer q = a - b /\ text q = pretty a +:+ " - " +:+ pretty b).
Proof.
  intros spec a b q. subst q. unfold generateQuestion. fold spec. cbv zeta.
  fold a b.
  split; intros [Ho | [Ho Hs]]; rewrite Ho; try rewrite Hs; cbn [text answer];
    split_and!; try reflexivity; clearbody a b; lia.
Qed.

Lemma generateQuestion_sub_order_witness :
  (optionsAllowNegative None = None /\
   allowNegative (getLevelSpec sub 4) = None) /\
  answer (generateQuestion sub 4 None (1#10) (9#10) "q") =
    Z.max (randomInt (1#10) 0 50) (randomInt (9#10) 0 50) -
    Z.min (randomInt (1#10) 0 50) (randomInt (9#10) 0 50).
Proof.
  split; [split; reflexivity|].
  apply (proj1 (generateQuestion_sub_order 4 None (1#10) (9#10) "q")).
  right. split; reflexivity.
Defined.

(** C9. [addMistakeEntry] keys entries by [skill + ":" + text] (the
    question id plays no part): an existing entry with that key (the first
    one) moves to the front with [misses + 1] and refreshed answer, level
    and [lastMissedAt]; otherwise a new entry with [misses = 1] goes to the
    front; the result is cut to its first 50 entries.  Two calls with the
    same question on a ledger without its key give a single entry for it,
    at the head, with [misses = 2]. *)
Theorem addMistakeEntry_spec items q now :
  let key := skillName (qskill q) +:+ ":" +:+ text q in
  (length (addMistakeEntry items q now) <= 50)%nat /\
  (Forall (fun it => mid it <> key) items ->
   addMistakeEntry items q now =
     take 50 (mkMistakeItem key (text q) (answer q) (qskill q) (qlevel q) 1 now
              :: items)) /\
  (forall pre e post,
     items = pre ++ e :: post ->
     Forall (fun it => mid it <> key) pre -> mid e = key ->
     addMistakeEntry items q now =
       take 50 (mkMistakeItem (mid e) (mtext e) (answer q) (mskill e)
                  (qlevel q) (misses e + 1) now :: pre ++ post)) /\
  (forall id', addMistakeEntry items
                 (mkQuestion id' (text q) (answer q) (qskill q) (qlevel q)) now =
               addMistakeEntry items q now) /\
  (Forall (fun it => mid it <> key) items -> forall now',
     exists e rest,
       addMistakeEntry (addMistakeEntry items q now) q now' = e :: rest /\
       mid e = key /\ misses e = 2 /\ Forall (fun it => mid it <> key) rest).
Proof.
  intros key.
  assert (Hnew : Forall (fun it => mid it <> key) items ->
     addMistakeEntry items q now =
     take 50 (mkMistakeItem key (text q) (answer q) (qskill q) (qlevel q) 1 now
              :: items)).
  { intros Hall. unfold addMistakeEntry.
    rewrite findIndex_none by (apply mid_neq_eqb, Hall). reflexivity. }
  split_and!.
  - apply addMistakeEntry_length.
  - exact Hnew.
  - intros pre e post -> Hpre He. unfold addMistakeEntry.
    rewrite (findIndex_app _ pre e post);
      [| apply mid_neq_eqb, Hpre | apply String.eqb_eq, He].
    rewrite list_lookup_middle by done.
    rewrite take_app_length.
    assert (Hd : drop (S (length pre)) (pre ++ e :: post) = post)
      by (clear; induction pre; simpl; auto).
    by rewrite Hd.
  - intros id'. reflexivity.
  - intros Hall now'. rewrite (Hnew Hall).
    unfold MAX_MISTAKES. cbn [take].
    unfold addMistakeEntry at 1. cbn [findIndex mid].
    rewrite String.eqb_refl. cbn.
    eexists _, _. split_and!; [reflexivity | reflexivity | reflexivity |].
    rewrite drop_0. apply Forall_take, Forall_take, Hall.
Qed.

Lemma addMistakeEntry_spec_witness :
  let q := mkQuestion "add-1" "3 + 4" 7 add 1 in
  exists e rest,
    addMistakeEntry (addMistakeEntry [] q 10) q 20 = e :: rest /\
    mid e = "add:3 + 4" /\ misses e = 2 /\
    Forall (fun it => mid it <> "add:3 + 4") rest.
Proof.
  apply (addMistakeEntry_spec [] (mkQuestion "add-1" "3 + 4" 7 add 1) 10).
  constructor.
Defined.

(* ================================================================== *)
(** * Further properties of the code *)

(** ** Level table and question generator *)

Lemma getLevelSpec_in k lvl : In (getLevelSpec k lvl) (LEVELS k).
Proof.
  unfold getLevelSpec. apply nth_In. rewrite LEVELS_length.
  change (Z.of_nat 12) with 12. unfold clamp. lia.
Qed.

Lemma LEVELS_valid k :
  Forall (fun sp => 0 <= default 0 (minA sp) <= maxA sp /\
                    0 <= default 0 (minB sp) <= maxB sp /\
                    (k = div -> 1 <= default 0 (minA sp))) (LEVELS k).
Proof. destruct k; repeat constructor; simpl; (lia || discriminate). Qed.

Lemma getLevelSpec_valid k lvl :
  let sp := getLevelSpec k lvl in
  0 <= default 0 (minA sp) <= maxA sp /\
  0 <= default 0 (minB sp) <= maxB sp /\
  (k = div -> 1 <= default 0 (minA sp)).
Proof.
  pose proof (LEVELS_valid k) as H. rewrite Forall_forall in H.
  apply H, list_elem_of_In, getLevelSpec_in.
Qed.

Lemma randomInt_range rnd lo hi :
  (0 <= rnd < 1)%Q -> lo <= hi -> lo <= randomInt rnd lo hi <= hi.
Proof.
  intros [H0 H1] Hle. unfold randomInt. cbv zeta.
  set (x := (rnd * inject_Z (hi - lo + 1))%Q).
  assert (Hx0 : (0 <= x)%Q).
  { subst x. apply Qmult_le_0_compat; [exact H0|].
    change 0%Q with (inject_Z 0). rewrite <- Zle_Qle. lia. }
  assert (Hx1 : (x < inject_Z (hi - lo + 1))%Q).
  { subst x. rewrite <- (Qmult_1_l (inject_Z (hi - lo + 1))) at 2.
    apply Qmult_lt_compat_r; [|exact H1].
    change 0%Q with (inject_Z 0). rewrite <- Zlt_Qlt. lia. }
  pose proof (Qfloor_le x) as Hf. pose proof (Qlt_floor x) as Hf'.
  assert (A : (inject_Z (-1) < inject_Z (Qfloor x))%Q).
  { rewrite inject_Z_plus in Hf'. change (inject_Z 1) with 1%Q in Hf'.
    change (inject_Z (-1)) with (-1)%Q. lra. }
  assert (B : (inject_Z (Qfloor x) < inject_Z (hi - lo + 1))%Q).
  { eapply Qle_lt_trans; [exact Hf | exact Hx1]. }
  rewrite <- Zlt_Qlt in A, B. lia.
Qed.



(** X2: the time budget lies in [[2400, 6000]] ms and never grows with the
    level. *)
Theorem getTargetMs_bounds_antitone l1 l2 :
  2400 <= getTargetMs l1 <= 6000 /\
  (l1 <= l2 -> getTargetMs l2 <= getTargetMs l1).
Proof. unfold getTargetMs, clamp. cbv zeta. split; [lia | intros; nia]. Qed.

Lemma getTargetMs_bounds_antitone_witness :
  2400 <= getTargetMs 3 <= 6000 /\ getTargetMs 9 <= getTargetMs 3.
Proof.
  destruct (getTargetMs_bounds_antitone 3 9) as [H1 H2].
  split; [exact H1 | apply H2; lia].
Defined.

(** X3: for draws of [Math.random()] in [[0, 1)], an addition question at
    any level is ["A + B"] with answer [A + B], where [A] and [B] lie in the
    [[0, maxA]] and [[0, maxB]] ranges of the (clamped) level spec. *)
Theorem generateQuestion_add_range lvl options rA rB id0 :
  (0 <= rA < 1)%Q -> (0 <= rB < 1)%Q ->
  let sp := getLevelSpec add lvl in
  let q := generateQuestion add lvl options rA rB id0 in
  exists a b, 0 <= a <= maxA sp /\ 0 <= b <= maxB sp /\
    text q = pretty a +:+ " + " +:+ pretty b /\ answer q = a + b.
Proof.
  intros HA HB sp q.
  destruct (getLevelSpec_valid add lvl) as (VA & VB & _). fold sp in VA, VB.
  pose proof (randomInt_range rA _ _ HA (proj2 VA)) as RA.
  pose proof (randomInt_range rB _ _ HB (proj2 VB)) as RB.
  exists (randomInt rA (default 0 (minA sp)) (maxA sp)),
         (randomInt rB (default 0 (minB sp)) (maxB sp)).
  split_and!; [lia | lia | lia | lia | reflexivity | reflexivity].
Qed.

Lemma generateQuestion_add_range_witness :
  exists a b, 0 <= a <= maxA (getLevelSpec add 1) /\ 0 <= b <= maxB (getLevelSpec add 1) /\
    text (generateQuestion add 1 None (1#2) (1#4) "q") = pretty a +:+ " + " +:+ pretty b /\
    answer (generateQuestion add 1 None (1#2) (1#4) "q") = a + b.
Proof.
  apply (generateQuestion_add_range 1 None (1#2) (1#4) "q");
    lra.
Defined.

(** X4: for draws in [[0, 1)], a multiplication question is ["A x B"] with
    answer [A * B], [A] and [B] in the [[0, maxA]] and [[0, maxB]] ranges of
    the level spec. *)
Theorem generateQuestion_mul_range lvl options rA rB id0 :
  (0 <= rA < 1)%Q -> (0 <= rB < 1)%Q ->
  let sp := getLevelSpec mul lvl in
  let q := generateQuestion mul lvl options rA rB id0 in
  exists a b, 0 <= a <= maxA sp /\ 0 <= b <= maxB sp /\
    text q = pretty a +:+ " x " +:+ pretty b /\ answer q = a * b.
Proof.
  intros HA HB sp q.
  destruct (getLevelSpec_valid mul lvl) as (VA & VB & _). fold sp in VA, VB.
  pose proof (randomInt_range rA _ _ HA (proj2 VA)) as RA.
  pose proof (randomInt_range rB _ _ HB (proj2 VB)) as RB.
  exists (randomInt rA (default 0 (minA sp)) (maxA sp)),
         (randomInt rB (default 0 (minB sp)) (maxB sp)).
  split_and!; [lia | lia | lia | lia | reflexivity | reflexivity].
Qed.

Lemma generateQuestion_mul_range_witness :
  exists a b, 0 <= a <= maxA (getLevelSpec mul 5) /\ 0 <= b <= maxB (getLevelSpec mul 5) /\
    text (generateQuestion mul 5 None (9#10) (0#1) "q") = pretty a +:+ " x " +:+ pretty b /\
    answer (generateQuestion mul 5 None (9#10) (0#1) "q") = a * b.
Proof. apply (generateQuestion_mul_range 5 None (9#10) (0#1) "q"); lra. Defined.

(** X5: for draws in [[0, 1)], a division question has its divisor in
    [[minA, maxA]] of the level spec (so [max(1, A)] is [A] itself, since
    every [minA] of the division table is at least 1) and its answer in
    [[0, maxB]]. *)
Theorem generateQuestion_div_range lvl options rA rB id0 :
  (0 <= rA < 1)%Q -> (0 <= rB < 1)%Q ->
  let sp := getLevelSpec div lvl in
  let q := generateQuestion div lvl options rA rB id0 in
  exists divisor,
    1 <= default 0 (minA sp) <= divisor /\ divisor <= maxA sp /\
    text q = pretty (divisor * answer q) +:+ " / " +:+ pretty divisor /\
    0 <= answer q <= maxB sp.
Proof.
  intros HA HB sp q.
  destruct (getLevelSpec_valid div lvl) as (VA & VB & Vd). fold sp in VA, VB, Vd.
  specialize (Vd eq_refl).
  pose proof (randomInt_range rA _ _ HA (proj2 VA)) as RA.
  pose proof (randomInt_range rB _ _ HB (proj2 VB)) as RB.
  exists (randomInt rA (default 0 (minA sp)) (maxA sp)).
  subst q. unfold generateQuestion. fold sp. cbv zeta. cbn [text answer].
  rewrite Z.max_r by lia.
  split_and!; [lia | lia | lia | reflexivity | lia | lia].
Qed.

Lemma generateQuestion_div_range_witness :
  exists divisor,
    1 <= default 0 (minA (getLevelSpec div 7)) <= divisor /\
    divisor <= maxA (getLevelSpec div 7) /\
    text (generateQuestion div 7 None (1#3) (2#3) "q") =
      pretty (divisor * answer (generateQuestion div 7 None (1#3) (2#3) "q"))
      +:+ " / " +:+ pretty divisor /\
    0 <= answer (generateQuestion div 7 None (1#3) (2#3) "q") <= maxB (getLevelSpec div 7).
Proof. apply (generateQuestion_div_range 7 None (1#3) (2#3) "q"); lra. Defined.

(** ** Derived statistics *)

Lemma accuracyFromHistory_bounds h : (0 <= accuracyFromHistory h <= 1)%Q.
Proof.
  unfold accuracyFromHistory.
  destruct (length h =? 0)%nat eqn:E; [split; discriminate|].
  apply Nat.eqb_neq in E.
  pose proof (fold_count_bounds h 0) as Hc.
  set (c := fold_left _ _ 0) in *.
  set (n := Z.of_nat (length h)) in *.
  assert (Hn : (inject_Z 0 < inject_Z n)%Q) by (rewrite <- Zlt_Qlt; lia).
  split.
  - apply Qle_shift_div_l; [exact Hn|].
    rewrite Qmult_0_l. change 0%Q with (inject_Z 0). rewrite <- Zle_Qle. lia.
  - apply Qle_shift_div_r; [exact Hn|].
    rewrite Qmult_1_l, <- Zle_Qle. lia.
Qed.

(** X6: [getAccuracy] is 0 on an empty history and always lies in
    [[0, 1]]. *)
Theorem getAccuracy_range st :
  (history st = [] -> getAccuracy st = 0%Q) /\
  (0 <= getAccuracy st <= 1)%Q.
Proof.
  split; [intros H; unfold getAccuracy, accuracyFromHistory; by rewrite H|].
  apply accuracyFromHistory_bounds.
Qed.

Lemma getAccuracy_range_witness :
  getAccuracy emptySkillStats = 0%Q /\ (0 <= getAccuracy emptySkillStats <= 1)%Q.
Proof.
  destruct (getAccuracy_range emptySkillStats) as [H1 H2].
  split; [apply H1; reflexivity | exact H2].
Defined.




(** ** Composition and monotonicity of [updateStats] *)

Lemma Stats_ext s t : (forall k, get s k = get t k) -> s = t.
Proof.
  intros H. destruct s, t.
  pose proof (H add); pose proof (H sub); pose proof (H mul); pose proof (H div).
  simpl in *. congruence.
Qed.

Lemma upd_same_local s t k c m :
  get s k = get t k ->
  get (updateStats s k c m) k = get (updateStats t k c m) k.
Proof.
  intros H. unfold updateStats. cbv zeta. rewrite H.
  repeat (case_match; simplify_eq/=); by rewrite !get_set_same.
Qed.

(** X8: results on two different skills commute: feeding them in either
    order gives the same Stats. *)
Theorem updateStats_commute s k1 c1 m1 k2 c2 m2 :
  k1 <> k2 ->
  updateStats (updateStats s k1 c1 m1) k2 c2 m2 =
  updateStats (updateStats s k2 c2 m2) k1 c1 m1.
Proof.
  intros Hne. apply Stats_ext. intros k.
  destruct (decide (k = k1)) as [->|H1]; [|destruct (decide (k = k2)) as [->|H2]].
  - rewrite upd_other by done.
    apply upd_same_local. rewrite upd_other by done. reflexivity.
  - rewrite (upd_other _ k1) by done.
    apply upd_same_local. rewrite upd_other by done. reflexivity.
  - rewrite !upd_other by done. reflexivity.
Qed.

Lemma updateStats_commute_witness :
  updateStats (updateStats createDefaultStats add true 900) div false 2000 =
  updateStats (updateStats createDefaultStats div false 2000) add true 900.
Proof. apply updateStats_commute. discriminate. Defined.

(** X9: for a level in [[1, MAX_LEVEL]], a correct answer never lowers the
    level and a wrong answer never raises it; each moves it by at most one. *)
Theorem updateStats_level_monotone s k c m :
  1 <= level (get s k) <= MAX_LEVEL ->
  let l' := level (get (updateStats s k c m) k) in
  (c = true -> level (get s k) <= l' <= level (get s k) + 1) /\
  (c = false -> level (get s k) - 1 <= l' <= level (get s k)).
Proof.
  rewrite MAX_LEVEL_12. intros Hl l'. subst l'.
  split; intros ->; upd_cases; bool_facts; lia.
Qed.

Lemma updateStats_level_monotone_witness :
  1 <= level (get createDefaultStats sub) <= MAX_LEVEL /\
  level (get createDefaultStats sub) <=
    level (get (updateStats createDefaultStats sub true 500) sub)
    <= level (get createDefaultStats sub) + 1.
Proof.
  assert (H : 1 <= level (get createDefaultStats sub) <= MAX_LEVEL)
    by (unfold MAX_LEVEL; simpl; lia).
  split; [exact H|].
  apply (proj1 (updateStats_level_monotone createDefaultStats sub true 500 H)).
  reflexivity.
Defined.

(** X10: the speed gate: a correct answer slower than [getTargetMs] of the
    current level never changes the level; it only extends the streak and
    clears the mistake streak. *)
Theorem updateStats_slow_correct s k m :
  (inject_Z (getTargetMs (level (get s k))) < m)%Q ->
  level (get (updateStats s k true m) k) = level (get s k) /\
  streak (get (updateStats s k true m) k) = streak (get s k) + 1 /\
  mistakeStreak (get (updateStats s k true m) k) = 0.
Proof.
  intros Hm. upd_cases; bool_facts; try lia;
    exfalso; eapply Qlt_not_le; eassumption.
Qed.

Lemma updateStats_slow_correct_witness :
  (inject_Z (getTargetMs (level (get createDefaultStats mul))) < 9000)%Q /\
  level (get (updateStats createDefaultStats mul true 9000) mul) =
    level (get createDefaultStats mul).
Proof.
  assert (H : (inject_Z (getTargetMs (level (get createDefaultStats mul))) < 9000)%Q)
    by (vm_compute; reflexivity).
  split; [exact H|].
  apply (updateStats_slow_correct createDefaultStats mul 9000 H).
Defined.

(** ** Mistake ledger: removal, unique ids, well-keyed entries *)


Lemma findIndex_none_inv {A} (p : A -> bool) (l : list A) :
  findIndex p l = None -> Forall (fun x => p x = false) l.
Proof.
  induction l as [|x l IH]; simpl; [constructor|].
  destruct (p x) eqn:Hx; [done|].
  destruct (findIndex p l); [done|]. intros _. constructor; auto.
Qed.

Lemma NoDup_take_l {A} n (l : list A) : NoDup l -> NoDup (take n l).
Proof.
  intros H. rewrite <- (take_drop n l) in H. apply NoDup_app in H. tauto.
Qed.

Lemma Forall_take_l {A} (P : A -> Prop) n l : Forall P l -> Forall P (take n l).
Proof. apply Forall_take. Qed.

(** The two branches of [addMistakeEntry] in one lemma: either no entry
    has the key and a new one goes first, or the first entry with the key
    is taken out of the list and its refreshed copy goes first. *)
Lemma addMistakeEntry_cases items q now :
  let key := makeMistakeId q in
  (Forall (fun it => mid it <> key) items /\
   addMistakeEntry items q now =
     take MAX_MISTAKES (mkMistakeItem key (text q) (answer q) (qskill q)
                          (qlevel q) 1 now :: items)) \/
  (exists pre e post, items = pre ++ e :: post /\ mid e = key /\
     addMistakeEntry items q now =
       take MAX_MISTAKES (mkMistakeItem (mid e) (mtext e) (answer q) (mskill e)
                            (qlevel q) (misses e + 1) now :: pre ++ post)).
Proof.
  intros key. unfold addMistakeEntry. fold key.
  destruct (findIndex _ items) as [i|] eqn:Hi.
  - right. destruct (findIndex_lookup _ _ _ Hi) as (e & He & Hp).
    rewrite He. apply String.eqb_eq in Hp.
    exists (take i items), e, (drop (S i) items).
    split_and!; [by rewrite take_drop_middle | exact Hp | reflexivity].
  - left. split; [|reflexivity].
    apply findIndex_none_inv in Hi. eapply Forall_impl; [exact Hi|].
    intros it H. by apply String.eqb_neq.
Qed.

(** X11: [removeMistakeEntry] leaves no entry with the question's key; a
    ledger without the key is returned unchanged, and when exactly one
    entry has the key it is the only one removed, the others keeping their
    order. *)
Theorem removeMistakeEntry_spec items q :
  let key := makeMistakeId q in
  Forall (fun it => mid it <> key) (removeMistakeEntry items q) /\
  (Forall (fun it => mid it <> key) items -> removeMistakeEntry items q = items) /\
  (forall pre e post, items = pre ++ e :: post -> mid e = key ->
     Forall (fun it => mid it <> key) (pre ++ post) ->
     removeMistakeEntry items q = pre ++ post).
Proof.
  intros key.
  assert (Hkeep : forall l, Forall (fun it => mid it <> key) l ->
                    removeMistakeEntry l q = l).
  { induction 1 as [|x l Hx _ IH]; [done|]. unfold removeMistakeEntry in *.
    simpl. fold key. apply String.eqb_neq in Hx. rewrite Hx. simpl. by f_equal. }
  split_and!.
  - unfold removeMistakeEntry. fold key. induction items as [|x l IH]; simpl; [done|].
    destruct (String.eqb (mid x) key) eqn:Hx; simpl; [exact IH|].
    constructor; [by apply String.eqb_neq | exact IH].
  - exact (Hkeep items).
  - intros pre e post -> He Hrest. apply Forall_app in Hrest as [Hpre Hpost].
    unfold removeMistakeEntry. rewrite List.filter_app. simpl. fold key.
    rewrite He, String.eqb_refl. simpl.
    pose proof (Hkeep pre Hpre) as A. pose proof (Hkeep post Hpost) as B.
    unfold removeMistakeEntry in A, B. fold key in A, B. by rewrite A, B.
Qed.

Lemma removeMistakeEntry_spec_witness :
  let q := mkQuestion "x" "2 + 2" 4 add 1 in
  let e := mkMistakeItem "add:2 + 2" "2 + 2" 4 add 1 3 50 in
  let o := mkMistakeItem "sub:9 - 1" "9 - 1" 8 sub 1 1 60 in
  removeMistakeEntry [o; e] q = [o].
Proof.
  intros q e o.
  destruct (removeMistakeEntry_spec [o; e] q) as (_ & _ & H).
  apply (H [o] e []).
  - reflexivity.
  - reflexivity.
  - repeat constructor. simpl. discriminate.
Defined.

Lemma NoDup_map_take {A B} (f : A -> B) n (l : list A) :
  NoDup (map f l) -> NoDup (map f (take n l)).
Proof.
  intros H. rewrite <- (take_drop n l), map_app in H. apply NoDup_app in H. tauto.
Qed.

Lemma removeMistakeEntry_sub items q (P : MistakeItem -> Prop) :
  Forall P items -> Forall P (removeMistakeEntry items q).
Proof.
  unfold removeMistakeEntry. induction 1 as [|x l Hx _ IH]; simpl; [constructor|].
  destruct (negb _); [constructor|]; auto.
Qed.

Lemma removeMistakeEntry_NoDup items q :
  NoDup (map mid items) -> NoDup (map mid (removeMistakeEntry items q)).
Proof.
  unfold removeMistakeEntry. induction items as [|x l IH]; simpl; [done|].
  intros H. apply NoDup_cons in H as [Hx Hl].
  destruct (negb _); simpl; [|auto].
  apply NoDup_cons. split; [|auto].
  intros Hin. apply Hx. apply list_elem_of_In in Hin. apply list_elem_of_In.
  apply in_map_iff in Hin as (y & Hy & Hin). apply filter_In in Hin as [Hin _].
  apply in_map_iff. eauto.
Qed.

(** X12: the ledger operations keep its two invariants: ids stay pairwise
    distinct, and every entry stays keyed by [skill + ":" + text]. *)
Theorem ledger_invariants items q now :
  (NoDup (map mid items) ->
   NoDup (map mid (addMistakeEntry items q now)) /\
   NoDup (map mid (removeMistakeEntry items q))) /\
  (Forall wellKeyed items ->
   Forall wellKeyed (addMistakeEntry items q now) /\
   Forall wellKeyed (removeMistakeEntry items q)).
Proof.
  destruct (addMistakeEntry_cases items q now)
    as [[Hall ->] | (pre & e & post & -> & He & ->)].
  - split; intros H; (split; [|apply removeMistakeEntry_NoDup || apply removeMistakeEntry_sub; exact H]).
    + apply NoDup_map_take. simpl. apply NoDup_cons. split; [|exact H].
      intros Hin. apply list_elem_of_In, in_map_iff in Hin as (y & Hy & Hin).
      rewrite Forall_forall in Hall. apply (Hall y); [by apply list_elem_of_In | exact Hy].
    + apply Forall_take. constructor; [reflexivity | exact H].
  - split; intros H; (split; [|apply removeMistakeEntry_NoDup || apply removeMistakeEntry_sub; exact H]).
    + apply NoDup_map_take. simpl.
      assert (Hp : mid e :: map mid (pre ++ post) ≡ₚ map mid (pre ++ e :: post)).
      { rewrite !map_app. simpl. apply Permutation_middle. }
      by rewrite Hp.
    + apply Forall_take. apply Forall_app in H as [Hpre Hpost].
      inversion Hpost as [|? ? Hwe Hpost']; subst.
      constructor; [exact Hwe | apply Forall_app; split; assumption].
Qed.

Lemma ledger_invariants_witness :
  let q := mkQuestion "x" "6 x 7" 42 mul 3 in
  NoDup (map mid ([] : list MistakeItem)) /\ Forall wellKeyed ([] : list MistakeItem) /\
  NoDup (map mid (addMistakeEntry [] q 5)) /\ Forall wellKeyed (addMistakeEntry [] q 5).
Proof.
  intros q.
  assert (H1 : NoDup (map mid ([] : list MistakeItem))) by constructor.
  assert (H2 : Forall wellKeyed ([] : list MistakeItem)) by constructor.
  split_and!; [exact H1 | exact H2 | |].
  - apply (ledger_invariants [] q 5). exact H1.
  - apply (ledger_invariants [] q 5). exact H2.
Defined.

(** ** Retrying a mistake *)

Lemma removeMistakeEntry_keep l q :
  Forall (fun it => mid it <> makeMistakeId q) l -> removeMistakeEntry l q = l.
Proof.
  induction 1 as [|x l Hx _ IH]; [done|]. unfold removeMistakeEntry in *.
  simpl. apply String.eqb_neq in Hx. rewrite Hx. simpl. by f_equal.
Qed.

Lemma NoDup_split_unique {A B} (f : A -> B) pre x post pre' y post' :
  NoDup (map f (pre ++ x :: post)) ->
  pre ++ x :: post = pre' ++ y :: post' -> f x = f y ->
  pre = pre' /\ x = y /\ post = post'.
Proof.
  revert pre'. induction pre as [|x0 pre IH]; intros [|y0 pre'] Hnd Heq Hf;
    simpl in *; injection Heq as Heq1 Heq.
  - by subst.
  - exfalso. subst y0 post. apply NoDup_cons in Hnd as [Hn _]. apply Hn.
    rewrite map_app. simpl. rewrite Hf. set_solver.
  - exfalso. subst x0 post'. apply NoDup_cons in Hnd as [Hn _]. apply Hn.
    rewrite map_app. simpl. rewrite <- Hf. set_solver.
  - subst y0. apply NoDup_cons in Hnd as [_ Hnd].
    destruct (IH pre' Hnd Heq Hf) as (-> & -> & ->). done.
Qed.

Lemma wellKeyed_id it sfx :
  wellKeyed it -> makeMistakeId (buildMistakeQuestion it sfx) = mid it.
Proof. unfold wellKeyed, makeMistakeId, buildMistakeQuestion. simpl. auto. Qed.

(** X13: a mistake retried through [buildMistakeQuestion] finds its own
    entry: answering it right removes exactly that entry, and missing it
    again moves that entry to the front with one more miss and the new
    time, all its other fields unchanged (ids unique, entry well keyed). *)
Theorem buildMistakeQuestion_round_trip pre it post sfx now :
  let items := pre ++ it :: post in
  NoDup (map mid items) -> wellKeyed it ->
  let q := buildMistakeQuestion it sfx in
  removeMistakeEntry items q = pre ++ post /\
  addMistakeEntry items q now =
    take MAX_MISTAKES
      (mkMistakeItem (mid it) (mtext it) (manswer it) (mskill it) (mlevel it)
         (misses it + 1) now :: pre ++ post).
Proof.
  intros items Hnd Hwk q.
  assert (Hkey : makeMistakeId q = mid it) by (apply wellKeyed_id; exact Hwk).
  assert (Hrest : Forall (fun e => mid e <> mid it) (pre ++ post)).
  { apply Forall_forall. intros e He Heq.
    subst items. rewrite map_app in Hnd. simpl in Hnd.
    apply NoDup_app in Hnd as (_ & Hdis & Hnd2).
    apply elem_of_app in He as [He|He].
    - apply (Hdis (mid e)); [apply list_elem_of_fmap; eauto|].
      rewrite Heq. set_solver.
    - apply NoDup_cons in Hnd2 as [Hn _]. apply Hn. rewrite <- Heq.
      apply list_elem_of_fmap. eauto. }
  split.
  - unfold removeMistakeEntry. subst items. rewrite List.filter_app. simpl.
    rewrite Hkey, String.eqb_refl. simpl.
    apply Forall_app in Hrest as [Hpre Hpost].
    pose proof (removeMistakeEntry_keep pre q) as A.
    pose proof (removeMistakeEntry_keep post q) as B.
    unfold removeMistakeEntry in A, B. rewrite Hkey in A, B.
    by rewrite A, B.
  - destruct (addMistakeEntry_cases items q now)
      as [[Hall _] | (pre' & e & post' & Hsplit & He & ->)].
    + exfalso. rewrite Forall_forall in Hall. apply (Hall it).
      * subst items. set_solver.
      * symmetry. exact Hkey.
    + rewrite Hkey in He.
      destruct (NoDup_split_unique mid pre it post pre' e post' Hnd Hsplit (eq_sym He))
        as (<- & <- & <-).
      reflexivity.
Qed.

Lemma buildMistakeQuestion_round_trip_witness :
  let it := mkMistakeItem "mul:6 x 7" "6 x 7" 42 mul 3 2 100 in
  let o := mkMistakeItem "add:1 + 1" "1 + 1" 2 add 1 1 50 in
  NoDup (map mid [o; it]) /\ wellKeyed it /\
  removeMistakeEntry [o; it] (buildMistakeQuestion it "1") = [o].
Proof.
  intros it o.
  assert (H1 : NoDup (map mid [o; it])).
  { simpl. apply NoDup_cons. split; [|apply NoDup_singleton].
    intros Hin. apply list_elem_of_singleton in Hin. discriminate. }
  assert (H2 : wellKeyed it) by reflexivity.
  split_and!; [exact H1 | exact H2 |].
  exact (proj1 (buildMistakeQuestion_round_trip [o] it [] "1" 200 H1 H2)).
Defined.

(** ** The queue of a mistake session *)

Lemma mistakeBefore_iff a b :
  mistakeBefore a b <->
  misses b < misses a \/ (misses b = misses a /\ lastMissedAt b <= lastMissedAt a).
Proof.
  unfold mistakeBefore, mistakeCompare.
  destruct (misses b =? misses a) eqn:E; simpl; [apply Z.eqb_eq in E | apply Z.eqb_neq in E];
    lia.
Qed.

#[global] Instance mistakeBefore_total : Total mistakeBefore.
Proof. intros a b. rewrite !mistakeBefore_iff. lia. Qed.

#[global] Instance mistakeBefore_trans : Transitive mistakeBefore.
Proof. intros a b c. rewrite !mistakeBefore_iff. lia. Qed.




(** ** Settings *)

(** X15: each settings button moves its own field by [delta], clamped to
    its range ([5..50] questions, [5..60] seconds, [0..MAX_LEVEL] for the
    negative level), and leaves the other two fields as they were. *)
Theorem settings_adjust_spec s d :
  let c := questionCount (adjustQuestionCount s d) in
  let t := timeLimitSeconds (adjustTimeLimit s d) in
  let n := negativeLevel (adjustNegativeLevel s d) in
  (adjustQuestionCount s d = mkSettings c (timeLimitSeconds s) (negativeLevel s) /\
   5 <= c <= 50 /\ (5 <= questionCount s + d <= 50 -> c = questionCount s + d)) /\
  (adjustTimeLimit s d = mkSettings (questionCount s) t (negativeLevel s) /\
   5 <= t <= 60 /\ (5 <= timeLimitSeconds s + d <= 60 -> t = timeLimitSeconds s + d)) /\
  (adjustNegativeLevel s d = mkSettings (questionCount s) (timeLimitSeconds s) n /\
   0 <= n <= MAX_LEVEL /\ (0 <= negativeLevel s + d <= MAX_LEVEL -> n = negativeLevel s + d)).
Proof.
  unfold adjustQuestionCount, adjustTimeLimit, adjustNegativeLevel; simpl.
  rewrite MAX_LEVEL_12. split_and!; try reflexivity; lia.
Qed.

Lemma settings_adjust_spec_witness :
  5 <= questionCount DEFAULT_SETTINGS + 5 <= 50 /\
  questionCount (adjustQuestionCount DEFAULT_SETTINGS 5) = 15.
Proof.
  assert (H : 5 <= questionCount DEFAULT_SETTINGS + 5 <= 50) by (simpl; lia).
  split; [exact H|].
  destruct (settings_adjust_spec DEFAULT_SETTINGS 5) as ((_ & _ & Hc) & _).
  rewrite (Hc H). reflexivity.
Defined.



(** ** Greatest common divisor *)

Lemma gcdLoop_spec fuel x y :
  0 <= x -> 0 <= y -> y < Z.of_nat fuel -> gcdLoop fuel x y = Z.gcd x y.
Proof.
  revert x y. induction fuel as [|f IH]; intros x y Hx Hy Hf; [lia|].
  simpl. destruct (y =? 0) eqn:E.
  - apply Z.eqb_eq in E. subst y. rewrite Z.gcd_0_r. lia.
  - apply Z.eqb_neq in E.
    assert (Hr : 0 <= Z.rem x y < y) by (apply Z.rem_bound_pos; lia).
    rewrite IH by lia.
    rewrite (Z.gcd_comm y), (Z.gcd_rem x y E). apply Z.gcd_comm.
Qed.

(** X17: [gcd(a, b)] of [app/page.tsx] terminates with the greatest common
    divisor of [a] and [b], for any signs ([gcd(0, 0) = 0]). *)
Theorem gcd_correct a b : gcd a b = Z.gcd a b.
Proof.
  unfold gcd. rewrite gcdLoop_spec by lia.
  by rewrite Z.gcd_abs_l, Z.gcd_abs_r.
Qed.

(** ** The answer keypad *)


Lemma substring_dropLast s :
  String.substring 0 (String.length s - 1) s = dropLast s.
Proof.
  induction s as [|c r IH]; [reflexivity|].
  destruct r as [|c' r']; [reflexivity|].
  simpl in *. rewrite Nat.sub_0_r in IH. by rewrite IH.
Qed.

Lemma substring_full s : String.substring 0 (String.length s) s = s.
Proof. induction s as [|c r IH]; simpl; [reflexivity | by rewrite IH]. Qed.

Lemma isDigit_not_minus c : isDigit c = true -> Ascii.eqb c "-"%char = false.
Proof.
  intros H. apply Ascii.eqb_neq. intros ->. discriminate.
Qed.

Lemma allDigits_app s t : allDigits (s +:+ t) = allDigits s && allDigits t.
Proof. induction s as [|c r IH]; simpl; [reflexivity|]. by rewrite IH, andb_assoc. Qed.

Lemma numeral_ok s : numeral s = true -> keypadAnswerOk s = true.
Proof.
  destruct s as [|c r]; [reflexivity|]. intros H. simpl.
  assert (Hc : isDigit c = true).
  { unfold numeral in H. simpl in H. by destruct (isDigit c). }
  by rewrite isDigit_not_minus.
Qed.

Lemma numeral_digit d : isDigit d = true -> numeral (String d EmptyString) = true.
Proof. intros H. unfold numeral. simpl. by rewrite H. Qed.

Lemma numeral_snoc r d :
  numeral r = true -> r <> "0" -> isDigit d = true ->
  numeral (r +:+ String d EmptyString) = true.
Proof.
  intros Hr H0 Hd. destruct r as [|c r']; [by apply numeral_digit|].
  unfold numeral in *. simpl in *.
  apply andb_true_iff in Hr as [Hr Hz]. apply andb_true_iff in Hr as [Hc Hr'].
  rewrite Hc, allDigits_app, Hr'. simpl. rewrite Hd. simpl.
  destruct r' as [|c2 r2]; simpl.
  - destruct (Ascii.eqb_spec c "0"); [congruence | reflexivity].
  - exact Hz.
Qed.

Lemma allDigits_dropLast s : allDigits s = true -> allDigits (dropLast s) = true.
Proof.
  induction s as [|c r IH]; [done|]. intros H.
  destruct r as [|c2 r2]; [done|].
  change (dropLast (String c (String c2 r2))) with (String c (dropLast (String c2 r2))).
  simpl in *. apply andb_true_iff in H as [Hc Hr]. rewrite Hc. simpl. auto.
Qed.

Lemma numeral_dropLast s : numeral s = true -> numeral (dropLast s) = true.
Proof.
  unfold numeral. intros H. apply andb_true_iff in H as [Ha Hz].
  rewrite allDigits_dropLast by exact Ha. simpl.
  destruct s as [|c [|c2 r]]; [done | done|].
  assert (E : dropLast (String c (String c2 r)) = String c (dropLast (String c2 r)))
    by reflexivity.
  rewrite E. destruct (dropLast (String c2 r)); [reflexivity | exact Hz].
Qed.

Lemma keypadAnswerOk_dropLast s :
  keypadAnswerOk s = true -> keypadAnswerOk (dropLast s) = true.
Proof.
  destruct s as [|c r]; [done|]. intros H.
  unfold keypadAnswerOk in H. cbv beta iota in H.
  destruct (Ascii.eqb c "-"%char) eqn:E.
  - destruct r as [|c2 r2]; [reflexivity|].
    assert (E2 : dropLast (String c (String c2 r2)) = String c (dropLast (String c2 r2)))
      by reflexivity.
    rewrite E2. unfold keypadAnswerOk. cbv beta iota. rewrite E.
    by apply numeral_dropLast.
  - apply numeral_ok. by apply (numeral_dropLast (String c r)).
Qed.

Lemma keypadPress_digit_case prev d :
  isDigit d = true -> keypadAnswerOk prev = true ->
  keypadAnswerOk (if String.eqb prev "0" then String d EmptyString
                  else if String.eqb prev "-0" then "-" +:+ String d EmptyString
                  else prev +:+ String d EmptyString) = true /\
  (numeral prev = true ->
   numeral (if String.eqb prev "0" then String d EmptyString
            else if String.eqb prev "-0" then "-" +:+ String d EmptyString
            else prev +:+ String d EmptyString) = true).
Proof.
  intros Hd Hok.
  destruct (String.eqb_spec prev "0") as [->|H0].
  { split; [apply numeral_ok|]; intros; by apply numeral_digit. }
  destruct (String.eqb_spec prev "-0") as [->|H1].
  { split; [|discriminate]. simpl. by apply numeral_digit. }
  destruct prev as [|c r].
  { split; [apply numeral_ok|]; intros; by apply numeral_digit. }
  simpl in Hok. simpl. destruct (Ascii.eqb c "-"%char) eqn:E.
  - apply Ascii.eqb_eq in E. subst c. split.
    + apply numeral_snoc; [exact Hok | congruence | exact Hd].
    + unfold numeral. simpl. discriminate.
  - assert (Hn : numeral (String c r +:+ String d EmptyString) = true)
      by (apply numeral_snoc; [exact Hok | exact H0 | exact Hd]).
    split; [|intros _; exact Hn]. exact Hn.
Qed.

Lemma keypadPress_other prev key allow :
  String.eqb key "CLR" = false -> String.eqb key "DEL" = false ->
  String.eqb key "-" = false ->
  keypadPress prev key allow =
    if String.eqb prev "0" then key
    else if String.eqb prev "-0" then "-" +:+ key
    else prev +:+ key.
Proof. intros H1 H2 H3. unfold keypadPress. by rewrite H1, H2, H3. Qed.

Lemma keypadPress_minus prev :
  keypadPress prev "-" true =
    if String.prefix "-" prev then String.substring 1 (String.length prev - 1) prev
    else if (String.length prev =? 0)%nat then "-"
    else if String.eqb prev "0" then "-0"
    else "-" +:+ prev.
Proof. reflexivity. Qed.

Lemma substring_tail c r :
  String.substring 1 (String.length (String c r) - 1) (String c r) = r.
Proof. simpl. rewrite Nat.sub_0_r. apply substring_full. Qed.

Lemma prefix_minus_other c r :
  c <> "-"%char -> String.prefix "-" (String c r) = false.
Proof.
  intros Hc.
  change (String.prefix "-" (String c r))
    with (match Ascii.ascii_dec "-" c with
          | left _ => String.prefix "" r
          | right _ => false
          end).
  destruct (Ascii.ascii_dec "-" c); congruence.
Qed.

Lemma prefix_minus_cons r : String.prefix "-" (String "-" r) = true.
Proof. by destruct r. Qed.

Lemma keypadAnswerOk_minus r : keypadAnswerOk (String "-" r) = numeral r.
Proof. reflexivity. Qed.

Lemma keypadAnswerOk_other c r :
  c <> "-"%char -> keypadAnswerOk (String c r) = numeral (String c r).
Proof.
  intros Hc. unfold keypadAnswerOk. cbv beta iota.
  by rewrite (proj2 (Ascii.eqb_neq c "-"%char) Hc).
Qed.

Lemma keypadPress_ok prev key allow :
  keypadAnswerOk prev = true -> key ∈ concat (keypadRows allow) ->
  keypadAnswerOk (keypadPress prev key allow) = true /\
  (numeral prev = true -> allow = false ->
   numeral (keypadPress prev key allow) = true).
Proof.
  intros Hok Hk.
  assert (Hkeys : key ∈ digitKeys \/ key = "-" \/ key = "DEL" \/ key = "CLR").
  { destruct allow; simpl in Hk; unfold digitKeys;
      repeat (apply elem_of_cons in Hk as [->|Hk]; [by eauto with set_solver|]);
      by apply elem_of_nil in Hk. }
  destruct Hkeys as [Hd | [-> | [-> | ->]]].
  - unfold digitKeys in Hd.
    repeat (apply elem_of_cons in Hd as [->|Hd];
            [rewrite keypadPress_other by reflexivity;
             split; [apply keypadPress_digit_case; [reflexivity | exact Hok]|];
             intros Hn _; apply keypadPress_digit_case; [reflexivity | exact Hok | exact Hn]|]).
    by apply elem_of_nil in Hd.
  - destruct allow.
    + split; [|discriminate]. rewrite keypadPress_minus.
      destruct prev as [|c r]; [reflexivity|].
      destruct (Ascii.ascii_dec "-" c) as [<-|Hc].
      * rewrite substring_tail, prefix_minus_cons.
        rewrite keypadAnswerOk_minus in Hok. by apply numeral_ok.
      * rewrite prefix_minus_other by congruence.
        rewrite keypadAnswerOk_other in Hok by congruence.
        destruct (String.eqb (String c r) "0"); [reflexivity|]. exact Hok.
    + assert (Hm : keypadPress prev "-" false = prev) by reflexivity.
      rewrite Hm. split; [exact Hok | intros Hn _; exact Hn].
  - unfold keypadPress. simpl. rewrite substring_dropLast. split.
    + by apply keypadAnswerOk_dropLast.
    + intros Hn _. by apply numeral_dropLast.
  - unfold keypadPress. simpl. split; reflexivity.
Qed.

(** X18: whatever keys of the shown keypad are pressed from an empty
    answer, the typed answer is empty or a decimal numeral without a
    leading zero (["0"] allowed) with at most one leading ["-"]; and when
    negative answers are never allowed it has no ["-"] at all. *)
Theorem keypad_answer_shape presses :
  Forall (fun p => p.1 ∈ concat (keypadRows p.2)) presses ->
  let answer := fold_left (fun prev p => keypadPress prev p.1 p.2) presses "" in
  keypadAnswerOk answer = true /\
  (Forall (fun p => p.2 = false) presses -> numeral answer = true).
Proof.
  intros Hk answer. subst answer. split.
  - assert (Hok : keypadAnswerOk "" = true) by reflexivity.
    revert Hok. generalize "" as prev.
    induction Hk as [|[key allow] ps Hp _ IH]; intros prev Hok; simpl; [exact Hok|].
    apply IH. exact (proj1 (keypadPress_ok prev key allow Hok Hp)).
  - assert (Hok : keypadAnswerOk "" = true) by reflexivity.
    assert (Hn : numeral "" = true) by reflexivity.
    revert Hok Hn. generalize "" as prev.
    induction Hk as [|[key allow] ps Hp _ IH]; intros prev Hok Hn Hf; simpl; [exact Hn|].
    apply Forall_cons in Hf as [Ha Hf]. simpl in Ha.
    destruct (keypadPress_ok prev key allow Hok Hp) as [Hok' Hn'].
    apply IH; [exact Hok' | exact (Hn' Hn Ha) | exact Hf].
Qed.

Lemma keypad_answer_shape_witness :
  let presses := [("0", false); ("7", false); ("DEL", false); ("5", false)] in
  Forall (fun p => p.1 ∈ concat (keypadRows p.2)) presses /\
  numeral (fold_left (fun prev p => keypadPress prev p.1 p.2) presses "") = true.
Proof.
  intros presses.
  assert (Hk : Forall (fun p => p.1 ∈ concat (keypadRows p.2)) presses).
  { repeat constructor; simpl; set_solver. }
  split; [exact Hk|].
  apply (keypad_answer_shape presses Hk). repeat constructor.
Defined.

(** X19: with negative answers allowed, pressing ["-"] twice gives back
    any answer of the keypad's shape (["-"] toggles the sign). *)
Theorem keypad_minus_twice prev :
  keypadAnswerOk prev = true ->
  keypadPress (keypadPress prev "-" true) "-" true = prev.
Proof.
  intros Hok. rewrite (keypadPress_minus prev).
  destruct prev as [|c r]; [reflexivity|].
  destruct (Ascii.ascii_dec "-" c) as [<-|Hc].
  - rewrite substring_tail, prefix_minus_cons.
    rewrite keypadAnswerOk_minus in Hok.
    rewrite keypadPress_minus. destruct r as [|c2 r2]; [reflexivity|].
    assert (Hc2 : isDigit c2 = true).
    { unfold numeral in Hok. simpl in Hok. by destruct (isDigit c2). }
    rewrite prefix_minus_other
      by (intros ->; discriminate Hc2).
    destruct (String.eqb_spec (String c2 r2) "0") as [E|E];
      [rewrite E; reflexivity | reflexivity].
  - rewrite prefix_minus_other by congruence.
    destruct (String.eqb_spec (String c r) "0") as [E|E]; [rewrite E; reflexivity|].
    change ((String.length (String c r) =? 0)%nat) with false. cbv iota.
    change ("-" +:+ String c r) with (String "-" (String c r)).
    rewrite keypadPress_minus, prefix_minus_cons, substring_tail. reflexivity.
Qed.

Lemma keypad_minus_twice_witness :
  keypadAnswerOk "12" = true /\ keypadPress (keypadPress "12" "-" true) "-" true = "12".
Proof.
  assert (H : keypadAnswerOk "12" = true) by reflexivity.
  split; [exact H | exact (keypad_minus_twice "12" H)].
Defined.

(** ** Choosing the next question *)

Lemma generateQuestion_fields skill lvl options rA rB id0 :
  qskill (generateQuestion skill lvl options rA rB id0) = skill /\
  qlevel (generateQuestion skill lvl options rA rB id0) = lvl.
Proof. destruct skill; split; reflexivity. Qed.

Lemma generateQuestion_negative skill lvl allowNeg rA rB id0 :
  (0 <= rA < 1)%Q -> (0 <= rB < 1)%Q ->
  answer (generateQuestion skill lvl (Some (mkGenOptions (Some allowNeg))) rA rB id0) < 0 ->
  skill = sub /\ allowNeg = true.
Proof.
  intros HA HB. destruct (getLevelSpec_valid skill lvl) as (VA & VB & _).
  pose proof (randomInt_range rA _ _ HA (proj2 VA)) as RA.
  pose proof (randomInt_range rB _ _ HB (proj2 VB)) as RB.
  revert RA RB.
  set (a := randomInt rA _ _). set (b := randomInt rB _ _).
  intros RA RB. unfold generateQuestion. fold a b.
  destruct skill; cbn [answer optionsAllowNegative opt_allowNegative mbind option_bind];
    intros Hneg.
  - lia.
  - destruct allowNeg; [done|]. lia.
  - nia.
  - lia.
Qed.

(** X20: [createQuestion] asks about the chosen skill (the selected one, or
    the one [pickSkill] draws in mix mode) at that skill's current level,
    and its answer is negative only for a subtraction when the negative
    level is switched on ([> 0]) and the skill's level has reached it. *)
Theorem createQuestion_spec mode snapshot negLevel rPick rA rB id0 :
  (0 <= rA < 1)%Q -> (0 <= rB < 1)%Q ->
  let q := createQuestion mode snapshot negLevel rPick rA rB id0 in
  qskill q = match mode with
             | ModeSkill k => k
             | mix => pickSkill snapshot rPick
             end /\
  qlevel q = level (get snapshot (qskill q)) /\
  (answer q < 0 -> qskill q = sub /\ 0 < negLevel <= qlevel q).
Proof.
  intros HA HB q. subst q. unfold createQuestion. cbv zeta.
  set (skill := match mode with
                | ModeSkill k => k
                | mix => pickSkill snapshot rPick
                end).
  set (allowNeg := bool_decide (skill = sub) && (0 <? negLevel)
                   && (negLevel <=? level (get snapshot skill))).
  destruct (generateQuestion_fields skill (level (get snapshot skill))
              (Some (mkGenOptions (Some allowNeg))) rA rB id0) as [Hs Hl].
  rewrite Hs, Hl. split_and!; [reflexivity | reflexivity |].
  intros Hneg. apply generateQuestion_negative in Hneg as [Hsub Ha]; [|exact HA | exact HB].
  split; [exact Hsub|].
  unfold allowNeg in Ha. apply andb_prop in Ha as [Ha H2]. apply andb_prop in Ha as [_ H1].
  apply Z.ltb_lt in H1. apply Z.leb_le in H2. lia.
Qed.

Lemma createQuestion_spec_witness :
  (0 <= 1 # 2 < 1)%Q /\
  qlevel (createQuestion (ModeSkill sub) createDefaultStats 0 0 (1 # 2) (1 # 2) "q")
    = level (get createDefaultStats sub).
Proof.
  assert (H : (0 <= 1 # 2 < 1)%Q) by lra.
  split; [exact H|].
  destruct (createQuestion_spec (ModeSkill sub) createDefaultStats 0 0 (1 # 2) (1 # 2) "q" H H)
    as (Hs & Hl & _).
  rewrite Hl, Hs. reflexivity.
Defined.

(** ** The typed answer *)


Lemma onlyDigits_stripInvalid s : onlyDigits (stripInvalid s) = onlyDigits s.
Proof.
  induction s as [|c r IH]; [reflexivity|]. simpl.
  destruct (isDigit c) eqn:D; simpl; rewrite ?D, ?IH; [reflexivity|].
  destruct (Ascii.eqb c "-"%char); simpl; rewrite ?D; exact IH.
Qed.

Lemma onlyDigits_removeMinus s : onlyDigits (removeMinus s) = onlyDigits s.
Proof.
  induction s as [|c r IH]; [reflexivity|]. simpl.
  destruct (Ascii.eqb c "-"%char) eqn:E.
  - apply Ascii.eqb_eq in E. subst c. exact IH.
  - simpl. by rewrite IH.
Qed.

Lemma digitsOrMinus_stripInvalid s : digitsOrMinus (stripInvalid s) = true.
Proof.
  induction s as [|c r IH]; [reflexivity|]. simpl.
  destruct (isDigit c || Ascii.eqb c "-"%char) eqn:E; simpl; rewrite ?E; auto.
Qed.

Lemma allDigits_removeMinus s : digitsOrMinus s = true -> allDigits (removeMinus s) = true.
Proof.
  induction s as [|c r IH]; [reflexivity|]. simpl.
  intros H. apply andb_true_iff in H as [Hc Hr].
  destruct (Ascii.eqb c "-"%char) eqn:E; [auto|]. simpl.
  rewrite orb_false_r in Hc. rewrite Hc. auto.
Qed.

Lemma allDigits_digitsOrMinus s : allDigits s = true -> digitsOrMinus s = true.
Proof.
  induction s as [|c r IH]; [reflexivity|]. simpl.
  intros H. apply andb_true_iff in H as [Hc Hr]. rewrite Hc. simpl. auto.
Qed.

Lemma stripInvalid_id s : digitsOrMinus s = true -> stripInvalid s = s.
Proof.
  induction s as [|c r IH]; [reflexivity|]. simpl.
  intros H. apply andb_true_iff in H as [Hc Hr]. rewrite Hc. by rewrite IH.
Qed.

Lemma removeMinus_id s : allDigits s = true -> removeMinus s = s.
Proof.
  induction s as [|c r IH]; [reflexivity|]. simpl.
  intros H. apply andb_true_iff in H as [Hc Hr].
  rewrite isDigit_not_minus by exact Hc. by rewrite IH.
Qed.

Lemma includesMinus_allDigits s : allDigits s = true -> includesMinus s = false.
Proof.
  induction s as [|c r IH]; [reflexivity|]. simpl.
  intros H. apply andb_true_iff in H as [Hc Hr].
  rewrite isDigit_not_minus by exact Hc. auto.
Qed.

Lemma digitsOrMinus_no_minus s :
  digitsOrMinus s = true -> includesMinus s = false -> allDigits s = true.
Proof.
  induction s as [|c r IH]; [reflexivity|]. simpl.
  intros H Hn. apply andb_true_iff in H as [Hc Hr].
  apply orb_false_iff in Hn as [E Hn]. rewrite E, orb_false_r in Hc.
  rewrite Hc. auto.
Qed.

Lemma signedDigits_allDigits s : allDigits s = true -> signedDigits s = true.
Proof.
  destruct s as [|c r]; [reflexivity|]. intros H. unfold signedDigits.
  assert (Hc : isDigit c = true) by (simpl in H; by destruct (isDigit c)).
  by rewrite isDigit_not_minus.
Qed.

(** X21: the typed answer keeps every digit of the input, in order, and
    nothing else but at most one ["-"], which stands first and only when
    negative answers are allowed; cleaning a cleaned answer changes
    nothing. *)
Theorem cleanAnswerInput_spec raw allow :
  let s := cleanAnswerInput raw allow in
  onlyDigits s = onlyDigits raw /\
  signedDigits s = true /\
  (allow = false -> allDigits s = true) /\
  cleanAnswerInput s allow = s.
Proof.
  intros s. subst s.
  pose proof (digitsOrMinus_stripInvalid raw) as Hdm.
  pose proof (onlyDigits_stripInvalid raw) as Hod.
  assert (Hdef : cleanAnswerInput raw allow =
            if negb allow then removeMinus (stripInvalid raw)
            else if includesMinus (stripInvalid raw)
                 then removeInnerMinus (stripInvalid raw)
                 else stripInvalid raw) by reflexivity.
  rewrite Hdef. set (cleaned := stripInvalid raw) in *.
  assert (Hclean : forall x, cleanAnswerInput x allow =
            if negb allow then removeMinus (stripInvalid x)
            else if includesMinus (stripInvalid x)
                 then removeInnerMinus (stripInvalid x)
                 else stripInvalid x) by reflexivity.
  rewrite Hclean. clear Hdef Hclean.
  destruct allow; cbn [negb].
  - destruct (includesMinus cleaned) eqn:Hin.
    + destruct cleaned as [|c r]; [discriminate|].
      change (removeInnerMinus (String c r)) with (String c (removeMinus r)).
      apply andb_true_iff in Hdm as [Hc Hr].
      pose proof (allDigits_removeMinus r Hr) as Ha.
      assert (Hs : digitsOrMinus (String c (removeMinus r)) = true).
      { cbn [digitsOrMinus]. by rewrite Hc, allDigits_digitsOrMinus. }
      rewrite (stripInvalid_id _ Hs).
      assert (Hin2 : includesMinus (String c (removeMinus r)) = Ascii.eqb c "-"%char).
      { cbn [includesMinus]. by rewrite (includesMinus_allDigits _ Ha), orb_false_r. }
      rewrite Hin2.
      split_and!.
      * cbn [onlyDigits] in *. by rewrite onlyDigits_removeMinus.
      * unfold signedDigits. destruct (Ascii.eqb c "-"%char) eqn:E; [exact Ha|].
        rewrite orb_false_r in Hc. cbn [allDigits]. by rewrite Hc, Ha.
      * discriminate.
      * destruct (Ascii.eqb c "-"%char); [|reflexivity].
        change (removeInnerMinus (String c (removeMinus r)))
          with (String c (removeMinus (removeMinus r))).
        by rewrite (removeMinus_id _ Ha).
    + pose proof (digitsOrMinus_no_minus _ Hdm Hin) as Ha.
      rewrite (stripInvalid_id _ Hdm), Hin.
      split_and!; [exact Hod | by apply signedDigits_allDigits | discriminate | reflexivity].
  - pose proof (allDigits_removeMinus _ Hdm) as Ha.
    rewrite (stripInvalid_id _ (allDigits_digitsOrMinus _ Ha)), (removeMinus_id _ Ha).
    split_and!; [by rewrite onlyDigits_removeMinus | by apply signedDigits_allDigits
                | intros _; exact Ha | reflexivity].
Qed.

Lemma cleanAnswerInput_spec_witness :
  cleanAnswerInput "a-1-2" false = "12" /\
  allDigits (cleanAnswerInput "a-1-2" false) = true.
Proof.
  split; [reflexivity|].
  destruct (cleanAnswerInput_spec "a-1-2" false) as (_ & _ & H & _).
  apply H. reflexivity.
Defined.

(** ** Picking a skill in mix mode *)



(** ** The hourly pop-under *)

(** X23: as long as the time written by a call is not before the time it
    checked, and the stored entry is left alone in between, two
    consecutive pop-under displays are at least an hour apart, and the
    first comes at least an hour after a display already recorded. *)
Theorem showPopUnder_hourly stored calls :
  Forall (fun p => p.1 <= p.2) calls ->
  Sorted (fun a b => a + POP_UNDER_FREQUENCY_MS <= b) (popUnderRun stored calls) /\
  (forall t, stored = ShownAt t ->
     Forall (fun w => t + POP_UNDER_FREQUENCY_MS <= w) (popUnderRun stored calls)).
Proof.
  intros Hc. revert stored.
  induction Hc as [|[c w] rest Hcw _ IH]; intros stored; simpl in *.
  - split; [constructor | intros; constructor].
  - assert (Hshow : Sorted (fun a b => a + POP_UNDER_FREQUENCY_MS <= b)
                      (w :: popUnderRun (ShownAt w) rest)).
    { destruct (IH (ShownAt w)) as [Hs Hf]. constructor; [exact Hs|].
      specialize (Hf w eq_refl). destruct (popUnderRun (ShownAt w) rest); constructor.
      by apply Forall_cons in Hf as [? _]. }
    destruct stored as [| |t]; simpl.
    + split; [exact Hshow | discriminate].
    + split; [exact Hshow | discriminate].
    + destruct (c - t <? POP_UNDER_FREQUENCY_MS) eqn:E; simpl.
      * exact (IH (ShownAt t)).
      * apply Z.ltb_ge in E. split; [exact Hshow|].
        intros t' [= <-]. constructor; [lia|].
        destruct (IH (ShownAt w)) as [_ Hf]. specialize (Hf w eq_refl).
        eapply Forall_impl; [exact Hf|]. unfold POP_UNDER_FREQUENCY_MS in *. lia.
Qed.


Lemma showPopUnder_hourly_witness :
  let calls := [(0, 1); (1000, 1000); (3600001, 3600002)] in
  Forall (fun p => p.1 <= p.2) calls /\ popUnderRun Missing calls = [1; 3600002] /\
  Sorted (fun a b => a + POP_UNDER_FREQUENCY_MS <= b) (popUnderRun Missing calls).
Proof.
  intros calls.
  assert (H : Forall (fun p => p.1 <= p.2) calls) by (repeat constructor; simpl; lia).
  split_and!; [exact H | reflexivity |].
  exact (proj1 (showPopUnder_hourly Missing calls H)).
Defined.

(** ** Typing an answer on the keypad *)

Lemma string_app_nil_r' s : s +:+ EmptyString = s.
Proof. induction s as [|c r IH]; [reflexivity | exact (f_equal (String c) IH)]. Qed.

Lemma string_app_assoc' a b c : (a +:+ b) +:+ c = a +:+ (b +:+ c).
Proof. induction a as [|x r IH]; [reflexivity | exact (f_equal (String x) IH)]. Qed.

Lemma digit_key c : isDigit c = true -> String c EmptyString ∈ digitKeys.
Proof.
  intros H. rewrite <- (Ascii.ascii_nat_embedding c).
  unfold isDigit in H. apply andb_prop in H as [H1 H2].
  apply Nat.leb_le in H1. apply Nat.leb_le in H2.
  generalize dependent (Ascii.nat_of_ascii c). intros n H1 H2.
  do 48 (destruct n as [|n]; [lia|]).
  do 10 (destruct n as [|n]; [apply (bool_decide_unpack _); vm_compute; reflexivity|]).
  lia.
Qed.

Lemma keypadAnswerOk_char p c r :
  keypadAnswerOk (p +:+ String c r) = true ->
  isDigit c = true \/ (c = "-"%char /\ p = EmptyString).
Proof.
  destruct p as [|c0 p'].
  - simpl. destruct (Ascii.eqb c "-"%char) eqn:E.
    + right. split; [by apply Ascii.eqb_eq | reflexivity].
    + unfold numeral. simpl. intros H. left. by destruct (isDigit c).
  - intros H. left.
    assert (Ha : allDigits (p' +:+ String c r) = true).
    { simpl in H. destruct (Ascii.eqb c0 "-"%char);
        unfold numeral in H; simpl in H.
      - by apply andb_true_iff in H as [? _].
      - apply andb_true_iff in H as [H _]. by apply andb_true_iff in H as [_ ?]. }
    rewrite allDigits_app in Ha. simpl in Ha.
    apply andb_true_iff in Ha as [_ Ha]. by destruct (isDigit c).
Qed.

Lemma keypadPress_append p c r allow :
  keypadAnswerOk (p +:+ String c r) = true ->
  (allow = true \/ numeral (p +:+ String c r) = true) ->
  String c EmptyString ∈ concat (keypadRows allow) /\
  keypadPress p (String c EmptyString) allow = p +:+ String c EmptyString.
Proof.
  intros Hok Hallow.
  destruct (keypadAnswerOk_char p c r Hok) as [Hd | [-> ->]].
  - split.
    { pose proof (digit_key c Hd) as Hk. unfold digitKeys in Hk.
      destruct allow; simpl; set_solver. }
    rewrite keypadPress_other; cycle 1.
    { apply String.eqb_neq. discriminate. }
    { apply String.eqb_neq. discriminate. }
    { apply String.eqb_neq. intros [= ->]. discriminate Hd. }
    destruct (String.eqb_spec p "0") as [->|H0].
    { exfalso. simpl in Hok. unfold numeral in Hok. simpl in Hok.
      rewrite andb_false_r in Hok. discriminate. }
    destruct (String.eqb_spec p "-0") as [->|H1]; [|reflexivity].
    exfalso. simpl in Hok. unfold numeral in Hok. simpl in Hok.
    rewrite andb_false_r in Hok. discriminate.
  - destruct Hallow as [-> | Hn]; [|discriminate].
    split; [simpl; set_solver | reflexivity].
Qed.

(** X24: every answer of the keypad's shape can be typed exactly: pressing
    its characters in order, from an empty answer, uses only shown keys
    and gives back the answer ([allowNegativeAnswer] is needed only for a
    leading ["-"]). *)
Theorem keypad_enters_answer s allow :
  keypadAnswerOk s = true -> (allow = true \/ numeral s = true) ->
  Forall (fun k => k ∈ concat (keypadRows allow)) (keysOf s) /\
  fold_left (fun prev k => keypadPress prev k allow) (keysOf s) "" = s.
Proof.
  intros Hok Hallow.
  enough (G : forall p, keypadAnswerOk (p +:+ s) = true ->
                (allow = true \/ numeral (p +:+ s) = true) ->
                Forall (fun k => k ∈ concat (keypadRows allow)) (keysOf s) /\
                fold_left (fun prev k => keypadPress prev k allow) (keysOf s) p = p +:+ s)
    by exact (G "" Hok Hallow).
  clear Hok Hallow. induction s as [|c r IH]; intros p Hok Hallow.
  - simpl. rewrite string_app_nil_r'. split; [constructor | reflexivity].
  - destruct (keypadPress_append p c r allow Hok Hallow) as [Hk Hp].
    simpl. rewrite Hp.
    change (String c r) with (String c EmptyString +:+ r) in Hok, Hallow.
    rewrite <- (string_app_assoc' p (String c EmptyString) r) in Hok, Hallow.
    destruct (IH (p +:+ String c EmptyString) Hok Hallow) as [Hks Hfold].
    split; [constructor; [exact Hk | exact Hks]|].
    rewrite Hfold. apply string_app_assoc'.
Qed.

Lemma keypad_enters_answer_witness :
  keypadAnswerOk "-305" = true /\
  fold_left (fun prev k => keypadPress prev k true) (keysOf "-305") "" = "-305".
Proof.
  assert (H : keypadAnswerOk "-305" = true) by reflexivity.
  split; [exact H|].
  exact (proj2 (keypad_enters_answer "-305" true H (or_introl eq_refl))).
Defined.
